(** * Instrumental-variable estimator and its refutation checks

    A shallow embedding of the four functions of
    [advanced_example_with_refutation.ipynb]:
    [instrumental_variables_estimator], [refute_estimate_random],
    [refute_estimate_placebo] and [refute_estimate_subset].

    The arithmetic of the notebook is numpy's; the functions are embedded
    once, over an interface of scalar operations ([Scalar]), and the
    interface has two instances: IEEE-754 binary64 ([float], the numbers the
    notebook computes with) and exact rational arithmetic extended with one
    non-finite value ([exact], the arithmetic the estimators are derived
    in).  pandas objects live in a heap of immutable-by-convention objects,
    the ambient [np.random] generator is an explicit state. *)

From Stdlib Require Import ZArith QArith Qcanon Qround Floats Lia Lqa.
From stdpp Require Import base option list strings gmap.

Open Scope string_scope.
Open Scope nat_scope.

(** ** Scalars: what the notebook does with numbers *)

Class Scalar (A : Type) := {
  of_int : Z -> A;               (* int -> float64 conversion *)
  fadd : A -> A -> A;            (* x + y *)
  fsub : A -> A -> A;            (* x - y *)
  fmul : A -> A -> A;            (* x * y *)
  fdiv : A -> A -> A;            (* x / y, numpy semantics: never raises *)
  feqb : A -> A -> bool;         (* x == y *)
  fltb : A -> A -> bool;         (* x < y *)
}.

(** *** IEEE-754 binary64 *)

Definition float_of_int (z : Z) : float :=
  match z with
  | Z0 => 0%float
  | Zpos _ => PrimFloat.of_uint63 (Uint63.of_Z z)
  | Zneg p => PrimFloat.opp (PrimFloat.of_uint63 (Uint63.of_Z (Zpos p)))
  end.

#[export] Instance float64 : Scalar float := {|
  of_int := float_of_int;
  fadd := PrimFloat.add;
  fsub := PrimFloat.sub;
  fmul := PrimFloat.mul;
  fdiv := PrimFloat.div;
  feqb := PrimFloat.eqb;
  fltb := PrimFloat.ltb;
|}.

(** *** Exact arithmetic

    [Finite q] is the rational [q]; [NonFinite] stands for every value that
    is not a finite number (NaN and the two infinities).  Division by zero
    gives [NonFinite], and [NonFinite] is absorbing. *)

Inductive exact : Type :=
  | Finite (q : Qc)
  | NonFinite.

#[export] Instance exact_eq_dec : EqDecision exact.
Proof. solve_decision. Defined.

Definition exact_lift2 (f : Qc -> Qc -> Qc) (x y : exact) : exact :=
  match x, y with
  | Finite a, Finite b => Finite (f a b)
  | _, _ => NonFinite
  end.

Definition exact_div (x y : exact) : exact :=
  match x, y with
  | Finite a, Finite b =>
      if decide (b = 0%Qc) then NonFinite else Finite (a / b)%Qc
  | _, _ => NonFinite
  end.

Definition exact_ltb (x y : exact) : bool :=
  match x, y with
  | Finite a, Finite b => bool_decide (a < b)%Qc
  | _, _ => false
  end.

#[export] Instance exact_scalar : Scalar exact := {|
  of_int z := Finite (Qc_of_Z z);
  fadd := exact_lift2 Qcplus;
  fsub := exact_lift2 Qcminus;
  fmul := exact_lift2 Qcmult;
  fdiv := exact_div;
  feqb x y := bool_decide (x = y);
  fltb := exact_ltb;
|}.

(** ** Exceptions and the two monads *)

Inductive exn : Type :=
  | KeyError (key : string)      (* df[name] on a missing column *)
  | ValueError                   (* pandas: bad length, bad [frac] *)
  | ZeroDivisionError            (* Python int / int with a zero divisor *)
  | TypeError.                   (* the object is not what the code uses it as *)

Inductive result (X : Type) : Type :=
  | Ok (x : X)
  | Raise (e : exn).
Arguments Ok {X} x.
Arguments Raise {X} e.

#[export] Instance result_ret : MRet result := fun _ x => Ok x.
#[export] Instance result_bind : MBind result := fun _ _ f r =>
  match r with
  | Ok x => f x
  | Raise e => Raise e
  end.

(** [a.take(idx)]: the entries of [a] at the positions [idx]. *)
Definition take_idx {X} (a : list X) (idx : list nat) : list X :=
  omap (fun i => a !! i) idx.

Section WithScalar.
Context {A : Type} `{Scalar A}.

(** ** numpy on one-dimensional arrays *)

(** [np.sum]: accumulation from the left, starting from 0. *)
Definition np_sum (a : list A) : A := fold_left fadd a (of_int 0).

(** [np.mean]: sum over count; 0/0 on an empty array. *)
Definition np_mean (a : list A) : A :=
  fdiv (np_sum a) (of_int (Z.of_nat (length a))).

(** [np.dot] of two vectors. *)
Definition np_dot (a b : list A) : A := np_sum (zip_with fmul a b).

(** [series == c]: the boolean mask. *)
Definition series_eq (s : list A) (c : A) : list bool :=
  (fun x => feqb x c) <$> s.

(** [series[mask]]: the entries at which the mask is [True]. *)
Definition series_mask (s : list A) (mask : list bool) : list A :=
  fst <$> filter (fun p => snd p = true) (zip s mask).

(** [np.unique]: the sorted unique elements. *)
Fixpoint dedupe (a : list A) : list A :=
  match a with
  | [] => []
  | x :: a' => if existsb (feqb x) a' then dedupe a' else x :: dedupe a'
  end.

Fixpoint sorted_insert (x : A) (a : list A) : list A :=
  match a with
  | [] => [x]
  | y :: a' => if fltb y x then y :: sorted_insert x a' else x :: a
  end.

Definition np_unique (a : list A) : list A :=
  foldr sorted_insert [] (dedupe a).

(** ** pandas objects *)

(** A data frame: its number of rows and its named columns.  Row labels
    are left out: every operation of the notebook pairs values of one
    frame by position. *)
Record DataFrame : Type := mkDataFrame {
  nrows : nat;
  columns : gmap string (list A);
}.

(** The invariant pandas maintains: every column has [nrows] entries. *)
Definition wf_frame (d : DataFrame) : Prop :=
  forall name col, columns d !! name = Some col -> length col = nrows d.

(** [namedtuple('CausalEstimate', ['value'])] *)
Record CausalEstimate : Type := mkCausalEstimate { value : A }.

(** [df[name]] *)
Definition getitem (d : DataFrame) (name : string) : result (list A) :=
  match columns d !! name with
  | Some col => Ok col
  | None => Raise (KeyError name)
  end.

(** [df.assign(name=col)] on the value level: the column is replaced when
    it exists and added otherwise. *)
Definition with_column (d : DataFrame) (name : string) (col : list A)
  : DataFrame :=
  {| nrows := nrows d; columns := <[name := col]> (columns d) |}.

(** The rows [idx] of a frame. *)
Definition take_rows (d : DataFrame) (idx : list nat) : DataFrame :=
  {| nrows := length idx;
     columns := (fun col => take_idx col idx) <$> columns d |}.

(** ** The heap and the random generator *)

Inductive object : Type :=
  | ODataFrame (d : DataFrame)
  | OEstimate (e : CausalEstimate).

Definition loc := nat.

(** The state of [np.random]: a tape of standard-normal deviates, a tape
    of raw integers, and the position reached on them. *)
Record RandomState : Type := mkRandomState {
  gauss_tape : nat -> A;
  int_tape : nat -> nat;
  pos : nat;
}.

Record World : Type := mkWorld {
  heap : list object;
  np_random : RandomState;
}.

Definition M (X : Type) : Type := World -> result X * World.

#[global] Instance M_ret : MRet M := fun _ x w => (Ok x, w).
#[global] Instance M_bind : MBind M := fun _ _ f m w =>
  match m w with
  | (Ok x, w') => f x w'
  | (Raise e, w') => (Raise e, w')
  end.

Definition raise {X} (e : exn) : M X := fun w => (Raise e, w).

Definition lift {X} (r : result X) : M X := fun w => (r, w).

(** Object creation: the new object gets the next free location. *)
Definition alloc (o : object) : M loc := fun w =>
  (Ok (length (heap w)),
   {| heap := heap w ++ [o]; np_random := np_random w |}).

Definition deref_frame (l : loc) : M DataFrame := fun w =>
  match heap w !! l with
  | Some (ODataFrame d) => (Ok d, w)
  | _ => (Raise TypeError, w)
  end.

(** [estimate.value] *)
Definition get_value (l : loc) : M A := fun w =>
  match heap w !! l with
  | Some (OEstimate e) => (Ok (value e), w)
  | _ => (Raise TypeError, w)
  end.

(** [df.shape[0]] *)
Definition shape0 (df : loc) : M nat :=
  d ← deref_frame df; mret (nrows d).

(** [df.assign(name=col)]: a new frame; the length of [col] is checked. *)
Definition assign (df : loc) (name : string) (col : list A) : M loc :=
  d ← deref_frame df;
  if decide (length col = nrows d)
  then alloc (ODataFrame (with_column d name col))
  else raise ValueError.

(** The generator after [n] more draws. *)
Definition advance (rs : RandomState) (n : nat) : RandomState :=
  {| gauss_tape := gauss_tape rs; int_tape := int_tape rs;
     pos := pos rs + n |}.

(** [np.random.randn(n)] *)
Definition randn (n : nat) : M (list A) := fun w =>
  let rs := np_random w in
  (Ok (gauss_tape rs <$> seq (pos rs) n),
   {| heap := heap w; np_random := advance rs n |}).

(** [random_interval(max)]: an integer between 0 and [max] inclusive. *)
Definition random_interval (max : nat) : M nat := fun w =>
  let rs := np_random w in
  (Ok (int_tape rs (pos rs) mod S max),
   {| heap := heap w; np_random := advance rs 1 |}).

(** [x[i], x[j] = x[j], x[i]] *)
Definition swap (x : list nat) (i j : nat) : list nat :=
  match x !! j, x !! i with
  | Some xj, Some xi => <[j := xi]> (<[i := xj]> x)
  | _, _ => x
  end.

(** [RandomState.shuffle]:
    [for i in reversed(range(1, n)): j = random_interval(i); swap] *)
Fixpoint shuffle_from (i : nat) (x : list nat) : M (list nat) :=
  match i with
  | 0 => mret x
  | S i' => j ← random_interval i; shuffle_from i' (swap x i j)
  end.

Definition shuffle (x : list nat) : M (list nat) :=
  shuffle_from (length x - 1) x.

(** [RandomState.permutation(n)] *)
Definition permutation (n : nat) : M (list nat) := shuffle (seq 0 n).

(** [RandomState.choice(n, size, replace=False)] *)
Definition choice (n size : nat) : M (list nat) :=
  idx ← permutation n; mret (take size idx).

(** Python's [round] on a non-integer: to nearest, ties to even. *)
Definition py_round (q : Q) : Z :=
  let f := Qfloor q in
  match Qcompare (q - inject_Z f) (1 # 2) with
  | Lt => f
  | Gt => (f + 1)%Z
  | Eq => if Z.even f then f else (f + 1)%Z
  end.

(** [q / 2^k] *)
Definition scale2 (q : Q) (k : Z) : Q :=
  if (0 <=? k)%Z then (q / inject_Z (2 ^ k))%Q
  else (q * inject_Z (2 ^ (- k)))%Q.

(** The binary64 number nearest to a positive rational, ties to even: the
    rational is scaled to 53 significant bits (fewer below the normal
    range), rounded to an integer and scaled back. *)
Definition binary64_pos (q : Q) : Q :=
  let e0 := (Z.log2 (Qnum q) - Z.log2 (Zpos (Qden q)))%Z in
  let k0 := (e0 - 52)%Z in
  let k1 := if Qlt_le_dec (scale2 q k0) (inject_Z (2 ^ 52))
            then (k0 - 1)%Z else k0 in
  let k := Z.max k1 (-1074) in
  scale2 (inject_Z (py_round (scale2 q k))) (- k).

(** The value Python holds for a number written [q]: the nearest binary64
    number.  Overflow to infinity is left out: no fraction that is
    accepted and no row count comes near it. *)
Definition binary64 (q : Q) : Q :=
  let q := Qred q in
  match Qcompare q 0 with
  | Eq => 0%Q
  | Gt => Qred (binary64_pos q)
  | Lt => Qred (- binary64_pos (- q))
  end.

(** The size of a sample drawn by [sample(frac=frac)] without replacement,
    for a float [frac]: [round(frac * obj_len)], the product being that of
    binary64 numbers. *)
Definition sample_size (frac : Q) (obj_len : nat) : result nat :=
  let frac := binary64 frac in
  if Qlt_le_dec 1 frac then Raise ValueError
  else if Qlt_le_dec frac 0 then Raise ValueError
  else Ok (Z.to_nat (py_round
             (binary64 (frac * binary64 (inject_Z (Z.of_nat obj_len)))))).

(** The same for an integer [frac]: the product is an integer. *)
Definition sample_size_int (frac : Z) (obj_len : nat) : result nat :=
  if (1 <? frac)%Z then Raise ValueError
  else if (frac <? 0)%Z then Raise ValueError
  else Ok (Z.to_nat (frac * Z.of_nat obj_len)).

(** [series.sample(frac=frac).values], [frac] an integer. *)
Definition series_sample (s : list A) (frac : Z) : M (list A) :=
  size ← lift (sample_size_int frac (length s));
  idx ← choice (length s) size;
  mret (take_idx s idx).

(** [df.sample(frac=frac)] *)
Definition frame_sample (df : loc) (frac : Q) : M loc :=
  d ← deref_frame df;
  size ← lift (sample_size frac (nrows d));
  idx ← choice (nrows d) size;
  alloc (ODataFrame (take_rows d idx)).

(** ** The estimator *)

(** The body of [instrumental_variables_estimator] up to [iv_est], on the
    frame [df] refers to. *)
Definition iv_estimate (d : DataFrame) (treatment_name : string) : result A :=
  instrument ← getitem d "Z0";
  let num_unique_values := length (np_unique instrument) in
  let instrument_is_binary := num_unique_values <=? 2 in
  if instrument_is_binary then
    (* Wald estimator *)
    y ← getitem d "y";
    let y1_z := np_mean (series_mask y (series_eq instrument (of_int 1))) in
    y ← getitem d "y";
    let y0_z := np_mean (series_mask y (series_eq instrument (of_int 0))) in
    x ← getitem d treatment_name;
    let x1_z := np_mean (series_mask x (series_eq instrument (of_int 1))) in
    x ← getitem d treatment_name;
    let x0_z := np_mean (series_mask x (series_eq instrument (of_int 0))) in
    let num := fsub y1_z y0_z in
    let deno := fsub x1_z x0_z in
    mret (fdiv num deno)
  else
    (* Pearl (1995) ratio estimator *)
    y ← getitem d "y";
    let num_yz := np_dot y instrument in
    x ← getitem d treatment_name;
    let deno_xz := np_dot x instrument in
    mret (fdiv num_yz deno_xz).

(** [def instrumental_variables_estimator(df, treatment_name="v")];
    an omitted argument is [None]. *)
Definition instrumental_variables_estimator
    (df : loc) (treatment_name : option string) : M loc :=
  let treatment_name := default "v" treatment_name in
  d ← deref_frame df;
  iv_est ← lift (iv_estimate d treatment_name);
  alloc (OEstimate {| value := iv_est |}).

(** ** The refuters *)

(** [def refute_estimate_random(df, causal_estimate)] *)
Definition refute_estimate_random (df causal_estimate : loc) : M A :=
  num_rows ← shape0 df;
  noise ← randn num_rows;
  new_data ← assign df "w_random" noise;
  new_effect ← instrumental_variables_estimator new_data None;
  refute ← get_value new_effect;
  mret refute.

(** One pass through the body of the [for] loop of
    [refute_estimate_placebo]; [refute] is the running total. *)
Definition placebo_step (df : loc) (placebo_type : string) (num_rows : nat)
    (refute : A) : M A :=
  new_treatment ←
    (if decide (placebo_type = "permute")
     then d ← deref_frame df;
          v ← lift (getitem d "v");
          series_sample v 1
     else randn num_rows);
  new_data ← assign df "placebo" new_treatment;
  new_estimate ← instrumental_variables_estimator new_data (Some "placebo");
  val ← get_value new_estimate;
  mret (fadd refute val).

(** [for i in range(sims): ...] *)
Fixpoint placebo_loop (df : loc) (placebo_type : string) (num_rows : nat)
    (iterations : nat) (refute : A) : M A :=
  match iterations with
  | 0 => mret refute
  | S iterations' =>
      refute' ← placebo_step df placebo_type num_rows refute;
      placebo_loop df placebo_type num_rows iterations' refute'
  end.

(** [def refute_estimate_placebo(df, estimate, placebo_type="permte",
    sims=100)].  [refute] starts as the integer 0; with [sims = 0] the final
    division is of two Python integers and raises. *)
Definition refute_estimate_placebo (df estimate : loc)
    (placebo_type : option string) (sims : option Z) : M A :=
  let placebo_type := default "permte" placebo_type in
  let sims := default 100%Z sims in
  num_rows ← shape0 df;
  refute ← placebo_loop df placebo_type num_rows (Z.to_nat sims) (of_int 0);
  if decide (sims = 0%Z) then raise ZeroDivisionError
  else mret (fdiv refute (of_int sims)).

(** [def refute_estimate_subset(df, causal_estimate, subset_fraction=0.8)] *)
Definition refute_estimate_subset (df causal_estimate : loc)
    (subset_fraction : option Q) : M A :=
  let subset_fraction := default (8 # 10)%Q subset_fraction in
  new_data ← frame_sample df subset_fraction;
  new_effect ← instrumental_variables_estimator new_data None;
  refute ← get_value new_effect;
  mret refute.

(** ** The claims' vocabulary *)

(** The values of [s] on the rows where the instrument equals [c]. *)
Definition group (s instrument : list A) (c : Z) : list A :=
  series_mask s (series_eq instrument (of_int c)).

(** Wald estimator: (mean outcome where instrument=1 minus mean outcome
    where instrument=0) over (mean treatment where instrument=1 minus mean
    treatment where instrument=0). *)
Definition wald_denominator (treatment instrument : list A) : A :=
  fsub (np_mean (group treatment instrument 1))
       (np_mean (group treatment instrument 0)).

Definition wald (outcome treatment instrument : list A) : A :=
  fdiv (fsub (np_mean (group outcome instrument 1))
             (np_mean (group outcome instrument 0)))
       (wald_denominator treatment instrument).

(** Pearl ratio estimator: the dot product of outcome and instrument over
    the dot product of treatment and instrument. *)
Definition pearl_ratio (outcome treatment instrument : list A) : A :=
  fdiv (np_dot outcome instrument) (np_dot treatment instrument).

(** The outcome column of a noise-free linear model: intercept [alpha],
    treatment effect [beta]. *)
Definition linear_outcome (alpha beta : A) (treatment : list A) : list A :=
  (fun v => fadd alpha (fmul beta v)) <$> treatment.

(** The number of rows a sample at the fraction [frac] of [n] rows has:
    the product of the two as binary64 numbers, rounded to an integer
    with ties to even. *)
Definition sample_count (frac : Q) (n : nat) : nat :=
  Z.to_nat (py_round
    (binary64 (binary64 frac * binary64 (inject_Z (Z.of_nat n))))).

(** Arithmetic in which a sum does not depend on the order of its terms
    and [==] holds of equal values only.  Exact arithmetic is such;
    binary64 is not (rounding, NaN, the two zeros). *)
Definition order_insensitive : Prop :=
  (forall x y z : A, fadd (fadd x y) z = fadd (fadd x z) y) /\
  (forall x y : A, feqb x y = true <-> x = y).

(** The number of distinct values of a column. *)
Definition num_distinct (a : list A) : nat := length (np_unique a).

(** The [i]-th block of [n] fresh standard-normal draws after the state
    [rs]. *)
Definition noise_column (rs : RandomState) (n i : nat) : list A :=
  gauss_tape rs <$> seq (pos rs + i * n) n.

(** What [RandomState.shuffle] makes of [x] from position [i] down, as a
    function of the generator's state: the integers are read off the tape
    from [rs] on, one for each position. *)
Fixpoint shuffled (rs : RandomState) (i : nat) (x : list nat) : list nat :=
  match i with
  | 0 => x
  | S i' =>
      shuffled (advance rs 1) i' (swap x i (int_tape rs (pos rs) mod S i))
  end.

(** The column [v] as the [i]-th random permutation after the state [rs]
    leaves it: shuffling [n] entries takes [n - 1] draws, so the [i]-th
    shuffle starts [i * (n - 1)] draws after [rs]. *)
Definition permuted_column (rs : RandomState) (v : list A) (i : nat)
  : list A :=
  take_idx v
    (shuffled (advance rs (i * (length v - 1))) (length v - 1)
       (seq 0 (length v))).

(** The rows [RandomState.choice(n, size, replace=False)] picks from the
    state [rs]: the first [size] positions of the shuffle of [0 .. n-1]. *)
Definition sampled_rows (rs : RandomState) (n size : nat) : list nat :=
  take size (shuffled rs (n - 1) (seq 0 n)).

(** The estimator re-run with the placebo column as the treatment. *)
Definition placebo_estimate (d : DataFrame) (col : list A) : result A :=
  iv_estimate (with_column d "placebo" col) "placebo".

(** What the placebo columns of the successive simulations are: in
    "permute" mode each is a rearrangement of the treatment column [v],
    in any other mode the [i]-th is the [i]-th block of fresh draws. *)
Definition placebo_columns (placebo_type : string) (v : list A)
    (rs : RandomState) (num_rows : nat) (cols : list (list A)) : Prop :=
  if decide (placebo_type = "permute")
  then Forall (fun col => col ≡ₚ v) cols
  else cols = noise_column rs num_rows <$> seq 0 (length cols).

(** The body of the placebo loop builds the column [col] gives for the
    state of the generator, runs the estimator on it and leaves the
    generator [draws] positions further. *)
Definition simulates (df : loc) (d : DataFrame) (placebo_type : string)
    (col : RandomState -> list A) (draws : nat) : Prop :=
  forall (refute : A) (w : World),
    heap w !! df = Some (ODataFrame d) ->
    placebo_step df placebo_type (nrows d) refute w =
    match placebo_estimate d (col (np_random w)) with
    | Ok est =>
        (Ok (fadd refute est),
         {| heap := heap w ++
              [ODataFrame (with_column d "placebo" (col (np_random w)));
               OEstimate {| value := est |}];
            np_random := advance (np_random w) draws |})
    | Raise e =>
        (Raise e,
         {| heap := heap w ++
              [ODataFrame (with_column d "placebo" (col (np_random w)))];
            np_random := advance (np_random w) draws |})
    end.

(** Placebo refutation that always draws Gaussian noise. *)
Fixpoint gaussian_placebo_loop (df : loc) (num_rows iterations : nat)
    (refute : A) : M A :=
  match iterations with
  | 0 => mret refute
  | S iterations' =>
      new_treatment ← randn num_rows;
      new_data ← assign df "placebo" new_treatment;
      new_estimate ← instrumental_variables_estimator new_data (Some "placebo");
      val ← get_value new_estimate;
      gaussian_placebo_loop df num_rows iterations' (fadd refute val)
  end.

Definition gaussian_placebo (df : loc) (sims : Z) : M A :=
  num_rows ← shape0 df;
  refute ← gaussian_placebo_loop df num_rows (Z.to_nat sims) (of_int 0);
  if decide (sims = 0%Z) then raise ZeroDivisionError
  else mret (fdiv refute (of_int sims)).

(** No object that exists before [m] runs is changed by [m]. *)
Definition preserves_heap {X} (m : M X) : Prop :=
  forall w, heap w `prefix_of` heap (m w).2.

(** [m] creates no object and changes none. *)
Definition heap_same {X} (m : M X) : Prop :=
  forall w, heap (m w).2 = heap w.

(** A run from [w] that returns a value has created a frame, the first
    object after those of [w]. *)
Definition derives_new_frame {X} (w : World) (out : result X * World)
  : Prop :=
  forall r, out.1 = Ok r ->
    exists d', heap out.2 !! length (heap w) = Some (ODataFrame d').

(** [instrumental_variables_estimator(df, treatment_name).value] *)
Definition estimate_value (df : loc) (treatment_name : option string) : M A :=
  e ← instrumental_variables_estimator df treatment_name;
  get_value e.

(** ** The cells of the notebook *)

(** The cells that follow the loading of the frame: the estimate, then the
    three refutations with their default arguments.  Each [print] of a
    number contributes the number to the result, in the order printed. *)
Definition notebook (df : loc) : M (list A) :=
  causal_estimate ← instrumental_variables_estimator df None;
  shown ← get_value causal_estimate;
  res_random ← refute_estimate_random df causal_estimate;
  was_random ← get_value causal_estimate;
  res_placebo ← refute_estimate_placebo df causal_estimate None None;
  was_placebo ← get_value causal_estimate;
  res_subset ← refute_estimate_subset df causal_estimate None;
  was_subset ← get_value causal_estimate;
  mret [shown; was_random; res_random; was_placebo; res_placebo;
        was_subset; res_subset].

(** The columns among [names] that the frame does not have, in order. *)
Definition missing_columns (d : DataFrame) (names : list string)
  : list string :=
  filter (fun name => ¬ is_Some (columns d !! name)) names.

End WithScalar.

Arguments DataFrame A : clear implicits.
Arguments CausalEstimate A : clear implicits.
Arguments object A : clear implicits.
Arguments RandomState A : clear implicits.
Arguments World A : clear implicits.
Arguments M A X : clear implicits.
Arguments order_insensitive A {_}.

(** ** Running the notebook's functions on small inputs *)

Module Examples.

Definition frame {A} (z v y : list A) : DataFrame A :=
  {| nrows := length z;
     columns := <["Z0" := z]> (<["v" := v]> (<["y" := y]> ∅)) |}.

Definition tape : RandomState float :=
  {| gauss_tape n := float_of_int (Z.of_nat n - 3);
     int_tape n := 7 * n + 3;
     pos := 0 |}.

Definition world (d : DataFrame float) : World float :=
  {| heap := [ODataFrame d]; np_random := tape |}.

(** Binary instrument, outcome 10 times the treatment. *)
Definition binary_frame : DataFrame float :=
  frame [1; 0; 1; 0; 1]%float [3; 1; 5; 2; 4]%float [30; 10; 50; 20; 40]%float.

(** The same with two more columns. *)
Definition wide_frame : DataFrame float :=
  with_column (with_column binary_frame "Z1" [0; 0; 0; 1; 1]%float)
    "X0" [9; 8; 7; 6; 5]%float.

(** Instrument with four values, outcome 7 times the treatment. *)
Definition continuous_frame : DataFrame float :=
  frame [1; 2; 3; 4]%float [1; 2; 3; 4]%float [7; 14; 21; 28]%float.

(** Binary instrument, the same mean treatment in both groups. *)
Definition flat_frame : DataFrame float :=
  frame [1; 0; 1; 0]%float [2; 2; 2; 2]%float [1; 2; 3; 4]%float.

Definition exact_column (zs : list Z) : list exact :=
  (fun z => Finite (Qc_of_Z z)) <$> zs.

Definition exact_tape : RandomState exact :=
  {| gauss_tape n := Finite (Qc_of_Z (Z.of_nat n - 3));
     int_tape n := 7 * n + 3;
     pos := 0 |}.

Definition exact_world (d : DataFrame exact) : World exact :=
  {| heap := [ODataFrame d]; np_random := exact_tape |}.

(** Binary instrument, outcome [2 + 7 * treatment]. *)
Definition linear_frame : DataFrame exact :=
  frame (exact_column [1; 0; 1; 0]%Z)
        (exact_column [3; 1; 5; 2]%Z)
        (linear_outcome (Finite (Qc_of_Z 2)) (Finite (Qc_of_Z 7))
           (exact_column [3; 1; 5; 2]%Z)).

(** A frame without an outcome column. *)
Definition no_outcome_frame : DataFrame float :=
  {| nrows := 3;
     columns := <["Z0" := [1; 0; 1]%float]> (<["v" := [3; 1; 5]%float]> ∅) |}.

(** A frame whose treatment column is named "x", not "v". *)
Definition renamed_frame : DataFrame float :=
  {| nrows := 3;
     columns := <["Z0" := [1; 0; 1]%float]>
                  (<["x" := [3; 1; 5]%float]>
                     (<["y" := [30; 10; 50]%float]> ∅)) |}.

(** A binary instrument coded 1 and 2. *)
Definition recoded_frame : DataFrame float :=
  frame [1; 2; 1; 2]%float [3; 1; 5; 2]%float [30; 10; 50; 20]%float.

(** The rows of [binary_frame] with another treatment column. *)
Definition other_treatment_frame : DataFrame float :=
  frame [1; 0; 1; 0; 1]%float [0; 0; 7; 7; 7]%float [30; 10; 50; 20; 40]%float.

(** No rows. *)
Definition empty_frame : DataFrame float := frame [] [] [].

(** Instrument with three values, outcome [2 + 7 * treatment]. *)
Definition linear_continuous_frame : DataFrame exact :=
  frame (exact_column [1; 2; 4]%Z)
        (exact_column [3; 1; 5]%Z)
        (linear_outcome (Finite (Qc_of_Z 2)) (Finite (Qc_of_Z 7))
           (exact_column [3; 1; 5]%Z)).

(** Binary instrument; the treatments of the rows with instrument 1 are
    one large value, its opposite and 1. *)
Definition cancelling_frame : DataFrame float :=
  frame [1; 1; 1; 0]%float [1e16; 1; -1e16; 0]%float [1; 1; 1; 0]%float.


End Examples.

(** * Properties *)

Section Generic.
Context {A : Type} `{Scalar A}.
Implicit Types (w : World A) (d : DataFrame A) (df l : loc).

(** ** Running the primitives *)

Lemma bind_run {X Y} (m : M A X) (k : X -> M A Y) w :
  (x ← m; k x) w =
  match m w with
  | (Ok x, w') => k x w'
  | (Raise e, w') => (Raise e, w')
  end.
Proof. reflexivity. Qed.

Lemma bind_assoc {X Y Z} (m : M A X) (f : X -> M A Y) (g : Y -> M A Z) w :
  (y ← (x ← m; f x); g y) w = (x ← m; y ← f x; g y) w.
Proof. rewrite !bind_run. by destruct (m w) as [[x|e] w']. Qed.

Lemma bind_ext {X Y} (m : M A X) (k1 k2 : X -> M A Y) w :
  (forall x w', k1 x w' = k2 x w') -> (x ← m; k1 x) w = (x ← m; k2 x) w.
Proof. intros Hk. rewrite !bind_run. by destruct (m w) as [[x|e] w']. Qed.

Lemma deref_frame_run w df d :
  heap w !! df = Some (ODataFrame d) -> deref_frame df w = (Ok d, w).
Proof. intros Hd. unfold deref_frame. by rewrite Hd. Qed.

Lemma get_value_alloc {X} w (est : A) (k : A -> M A X) :
  (e ← alloc (OEstimate {| value := est |}); x ← get_value e; k x) w =
  k est (alloc (OEstimate {| value := est |}) w).2.
Proof.
  rewrite bind_run. unfold alloc at 1. rewrite bind_run.
  unfold get_value, alloc. simpl.
  by rewrite list_lookup_middle.
Qed.

Lemma estimator_run w df d t :
  heap w !! df = Some (ODataFrame d) ->
  instrumental_variables_estimator df t w =
  match iv_estimate d (default "v" t) with
  | Ok est => alloc (OEstimate {| value := est |}) w
  | Raise e => (Raise e, w)
  end.
Proof.
  intros Hd. unfold instrumental_variables_estimator.
  rewrite bind_run, (deref_frame_run _ _ _ Hd), bind_run.
  unfold lift. by destruct (iv_estimate d (default "v" t)).
Qed.

Lemma estimate_value_run w df d t :
  heap w !! df = Some (ODataFrame d) ->
  (estimate_value df t w).1 = iv_estimate d (default "v" t).
Proof.
  intros Hd. unfold estimate_value.
  rewrite bind_run, (estimator_run _ _ _ _ Hd).
  destruct (iv_estimate d (default "v" t)) as [est|e]; [|done].
  unfold get_value, alloc. simpl. by rewrite list_lookup_middle.
Qed.

Lemma shape0_run {X} w df d (k : nat -> M A X) :
  heap w !! df = Some (ODataFrame d) ->
  (n ← shape0 df; k n) w = k (nrows d) w.
Proof.
  intros Hd. unfold shape0.
  by rewrite !bind_run, (deref_frame_run _ _ _ Hd).
Qed.

Lemma randn_run {X} w n (k : list A -> M A X) :
  (noise ← randn n; k noise) w =
  k (gauss_tape (np_random w) <$> seq (pos (np_random w)) n)
    {| heap := heap w; np_random := advance (np_random w) n |}.
Proof. done. Qed.

(** ** The estimator *)

Lemma iv_estimate_columns d t z y x :
  columns d !! "Z0" = Some z ->
  columns d !! "y" = Some y ->
  columns d !! t = Some x ->
  iv_estimate d t =
  Ok (if decide (num_distinct z ≤ 2) then wald y x z else pearl_ratio y x z).
Proof.
  intros Hz Hy Hx. unfold iv_estimate, getitem.
  rewrite Hz. simpl. fold (num_distinct z).
  destruct (Nat.leb_spec (num_distinct z) 2) as [Hle|Hgt];
    rewrite Hy; simpl; rewrite Hx; simpl; case_decide; try lia; done.
Qed.

(** C1: the estimator dispatches on the number of distinct values of the
    instrument column "Z0": with at most two it returns the Wald
    estimator, otherwise the Pearl ratio estimator; the value comes back
    wrapped in a new [CausalEstimate] record, and nothing else changes. *)
Theorem estimator_dispatch w df d t z y x :
  heap w !! df = Some (ODataFrame d) ->
  columns d !! "Z0" = Some z ->
  columns d !! "y" = Some y ->
  columns d !! default "v" t = Some x ->
  instrumental_variables_estimator df t w =
  (Ok (length (heap w)),
   {| heap := heap w ++
        [OEstimate {| value := if decide (num_distinct z ≤ 2)
                               then wald y x z
                               else pearl_ratio y x z |}];
      np_random := np_random w |}).
Proof.
  intros Hd Hz Hy Hx.
  rewrite (estimator_run _ _ _ _ Hd).
  by rewrite (iv_estimate_columns _ _ _ _ _ Hz Hy Hx).
Qed.

Lemma iv_estimate_ext (d1 d2 : DataFrame A) t :
  columns d1 !! "Z0" = columns d2 !! "Z0" ->
  columns d1 !! "y" = columns d2 !! "y" ->
  columns d1 !! t = columns d2 !! t ->
  iv_estimate d1 t = iv_estimate d2 t.
Proof.
  intros Hz Hy Hx. unfold iv_estimate, getitem.
  by rewrite Hz, Hy, Hx.
Qed.

(** C9: the estimate depends only on the columns "y", [treatment_name]
    and "Z0": two frames that agree on these three (in content or in
    absence) get the same estimate, or the same exception, whatever
    their other columns and whatever else the heap holds. *)
Theorem estimator_reads_three_columns w1 w2 df1 df2 d1 d2 t :
  heap w1 !! df1 = Some (ODataFrame d1) ->
  heap w2 !! df2 = Some (ODataFrame d2) ->
  (forall name, name ∈ ["y"; default "v" t; "Z0"] ->
     columns d1 !! name = columns d2 !! name) ->
  (estimate_value df1 t w1).1 = (estimate_value df2 t w2).1.
Proof.
  intros Hd1 Hd2 Hagree.
  rewrite (estimate_value_run _ _ _ _ Hd1), (estimate_value_run _ _ _ _ Hd2).
  apply iv_estimate_ext; apply Hagree; set_solver.
Qed.

Lemma iv_estimate_with_column d name col t :
  name <> "Z0" -> name <> "y" -> name <> t ->
  iv_estimate (with_column d name col) t = iv_estimate d t.
Proof.
  intros Hz Hy Ht. apply iv_estimate_ext; simpl;
    by rewrite lookup_insert_ne.
Qed.

(** ** Random common cause *)

Lemma assign_run w df d name (col : list A) :
  heap w !! df = Some (ODataFrame d) ->
  length col = nrows d ->
  assign df name col w = alloc (ODataFrame (with_column d name col)) w.
Proof.
  intros Hd Hlen. unfold assign.
  rewrite bind_run, (deref_frame_run _ _ _ Hd).
  by rewrite decide_True.
Qed.

Lemma estimate_of_new_frame {X} w d t (k : A -> M A X) :
  (new_data ← alloc (ODataFrame d);
   e ← instrumental_variables_estimator new_data t;
   x ← get_value e; k x) w =
  match iv_estimate d (default "v" t) with
  | Ok est =>
      k est {| heap := heap w ++ [ODataFrame d; OEstimate {| value := est |}];
               np_random := np_random w |}
  | Raise e =>
      (Raise e, {| heap := heap w ++ [ODataFrame d];
                   np_random := np_random w |})
  end.
Proof.
  rewrite bind_run. unfold alloc at 1. rewrite bind_run.
  rewrite (estimator_run _ _ d t) by (simpl; by rewrite list_lookup_middle).
  destruct (iv_estimate d (default "v" t)) as [est|e]; [|done].
  unfold alloc at 1. rewrite bind_run.
  unfold get_value. simpl.
  rewrite list_lookup_middle by done.
  by rewrite <- app_assoc.
Qed.

(** C7: random-common-cause refutation builds a new frame with the
    column "w_random" of fresh standard-normal draws (one column more
    when the name is new), leaves "v", "y" and "Z0" as they are, and
    returns exactly what the estimator returns on the original frame,
    for every content of the random tapes. *)
Theorem random_common_cause_equals_baseline w df ce d :
  heap w !! df = Some (ODataFrame d) ->
  (refute_estimate_random df ce w).1 = (estimate_value df None w).1 /\
  exists noise new_data,
    length noise = nrows d /\
    heap (refute_estimate_random df ce w).2 !! length (heap w) =
      Some (ODataFrame new_data) /\
    columns new_data = <["w_random" := noise]> (columns d) /\
    (columns d !! "w_random" = None ->
       size (columns new_data) = S (size (columns d))) /\
    (forall name, name ∈ ["v"; "y"; "Z0"] ->
       columns new_data !! name = columns d !! name).
Proof.
  intros Hd. rewrite (estimate_value_run _ _ _ _ Hd).
  unfold refute_estimate_random.
  rewrite (shape0_run _ _ _ _ Hd), randn_run.
  set (noise := gauss_tape (np_random w) <$> seq (pos (np_random w)) (nrows d)).
  assert (Hlen : length noise = nrows d)
    by (unfold noise; by rewrite length_fmap, length_seq).
  set (w1 := {| heap := heap w; np_random := advance _ _ |}).
  rewrite bind_run, (assign_run w1 df d "w_random" noise Hd Hlen).
  rewrite <- bind_run.
  rewrite (estimate_of_new_frame w1 _ None).
  simpl. rewrite iv_estimate_with_column by done.
  split.
  - by destruct (iv_estimate d "v").
  - exists noise, (with_column d "w_random" noise).
    split; [done|]. split.
    + destruct (iv_estimate d "v"); simpl;
        rewrite lookup_app_r by done;
        by rewrite Nat.sub_diag.
    + split; [done|]. split; [by apply map_size_insert_None|].
      intros name Hname. simpl.
      apply lookup_insert_ne. intros <-.
      by repeat (apply elem_of_cons in Hname as [?|Hname]; [done|]);
         apply elem_of_nil in Hname.
Qed.

(** C10: the three refuters take the baseline estimate and never read it:
    with the same frame, options and world, any two baseline arguments
    give the same result and the same final world. *)
Theorem refuters_ignore_baseline w df ce1 ce2 placebo_type sims frac :
  refute_estimate_random df ce1 w = refute_estimate_random df ce2 w /\
  refute_estimate_placebo df ce1 placebo_type sims w =
    refute_estimate_placebo df ce2 placebo_type sims w /\
  refute_estimate_subset df ce1 frac w = refute_estimate_subset df ce2 frac w.
Proof. done. Qed.

(** ** The heap only grows *)

Lemma preserves_ret {X} (x : X) : preserves_heap (mret x : M A X).
Proof. by intros w. Qed.

Lemma preserves_raise {X} e : preserves_heap (raise e : M A X).
Proof. by intros w. Qed.

Lemma preserves_lift {X} (r : result X) : preserves_heap (lift r : M A X).
Proof. by intros w. Qed.

Lemma preserves_bind {X Y} (m : M A X) (k : X -> M A Y) :
  preserves_heap m -> (forall x, preserves_heap (k x)) ->
  preserves_heap (x ← m; k x).
Proof.
  intros Hm Hk w. rewrite bind_run.
  specialize (Hm w). destruct (m w) as [[x|e] w']; simpl in *; [|done].
  etrans; [exact Hm | apply Hk].
Qed.

Lemma preserves_alloc (o : object A) : preserves_heap (alloc o).
Proof. intros w. simpl. by apply prefix_app_r. Qed.

Lemma preserves_deref_frame df : preserves_heap (deref_frame (A:=A) df).
Proof.
  intros w. unfold deref_frame.
  by destruct (heap w !! df) as [[?|?]|].
Qed.

Lemma preserves_get_value l : preserves_heap (get_value (A:=A) l).
Proof.
  intros w. unfold get_value.
  by destruct (heap w !! l) as [[?|?]|].
Qed.

Lemma preserves_randn n : preserves_heap (randn (A:=A) n).
Proof. by intros w. Qed.

Lemma preserves_random_interval n :
  preserves_heap (random_interval (A:=A) n).
Proof. by intros w. Qed.

Create HintDb frame discriminated.
#[local] Hint Resolve preserves_ret preserves_raise preserves_lift
  preserves_alloc preserves_deref_frame preserves_get_value
  preserves_randn preserves_random_interval : frame.

Ltac frame :=
  repeat first
    [ apply preserves_bind; [|intros ?]
    | case_decide
    | solve [eauto with frame] ].

Lemma preserves_shuffle_from i x : preserves_heap (shuffle_from (A:=A) i x).
Proof. revert x. induction i as [|i IH]; intros x; simpl; frame. Qed.
#[local] Hint Resolve preserves_shuffle_from : frame.

Lemma preserves_choice n size : preserves_heap (choice (A:=A) n size).
Proof. unfold choice, permutation, shuffle. frame. Qed.
#[local] Hint Resolve preserves_choice : frame.

Lemma preserves_estimator df t :
  preserves_heap (instrumental_variables_estimator (A:=A) df t).
Proof. unfold instrumental_variables_estimator. frame. Qed.
#[local] Hint Resolve preserves_estimator : frame.

Lemma preserves_assign df name (col : list A) :
  preserves_heap (assign df name col).
Proof. unfold assign. frame. Qed.
#[local] Hint Resolve preserves_assign : frame.

Lemma preserves_placebo_loop df placebo_type num_rows n (refute : A) :
  preserves_heap (placebo_loop df placebo_type num_rows n refute).
Proof.
  revert refute. induction n as [|n IH]; intros refute; simpl; [frame|].
  apply preserves_bind; [|done].
  unfold placebo_step, series_sample. frame.
Qed.

Lemma preserves_random df ce :
  preserves_heap (refute_estimate_random (A:=A) df ce).
Proof. unfold refute_estimate_random, shape0. frame. Qed.

Lemma preserves_placebo df ce placebo_type sims :
  preserves_heap (refute_estimate_placebo (A:=A) df ce placebo_type sims).
Proof.
  unfold refute_estimate_placebo, shape0.
  apply preserves_bind; [frame|intros ?].
  apply preserves_bind; [apply preserves_placebo_loop|intros ?].
  frame.
Qed.

Lemma preserves_subset df ce frac :
  preserves_heap (refute_estimate_subset (A:=A) df ce frac).
Proof. unfold refute_estimate_subset, frame_sample. frame. Qed.

(** *** Every refuter starts by building a frame *)

Lemma bind_Ok_inv {X Y} (m : M A X) (k : X -> M A Y) w r w' :
  (x ← m; k x) w = (Ok r, w') ->
  exists x w1, m w = (Ok x, w1) /\ k x w1 = (Ok r, w').
Proof.
  rewrite bind_run. destruct (m w) as [[x|e] w1]; [|done].
  intros Hk. by exists x, w1.
Qed.

Lemma heap_same_ret {X} (x : X) : heap_same (mret x : M A X).
Proof. by intros w. Qed.

Lemma heap_same_lift {X} (r : result X) : heap_same (lift r : M A X).
Proof. by intros w. Qed.

Lemma heap_same_bind {X Y} (m : M A X) (k : X -> M A Y) :
  heap_same m -> (forall x, heap_same (k x)) -> heap_same (x ← m; k x).
Proof.
  intros Hm Hk w. rewrite bind_run.
  specialize (Hm w). destruct (m w) as [[x|e] w']; simpl in *; [|done].
  by rewrite Hk.
Qed.

Lemma heap_same_deref_frame df : heap_same (deref_frame (A:=A) df).
Proof.
  intros w. unfold deref_frame.
  by destruct (heap w !! df) as [[?|?]|].
Qed.

Lemma heap_same_randn n : heap_same (randn (A:=A) n).
Proof. by intros w. Qed.

Lemma heap_same_random_interval n : heap_same (random_interval (A:=A) n).
Proof. by intros w. Qed.

Create HintDb same discriminated.
#[local] Hint Resolve heap_same_ret heap_same_lift heap_same_deref_frame
  heap_same_randn heap_same_random_interval : same.

Ltac same :=
  repeat first
    [ apply heap_same_bind; [|intros ?]
    | case_decide
    | solve [eauto with same] ].

Lemma heap_same_shuffle_from i x : heap_same (shuffle_from (A:=A) i x).
Proof. revert x. induction i as [|i IH]; intros x; simpl; same. Qed.
#[local] Hint Resolve heap_same_shuffle_from : same.

Lemma heap_same_choice n size : heap_same (choice (A:=A) n size).
Proof. unfold choice, permutation, shuffle. same. Qed.
#[local] Hint Resolve heap_same_choice : same.

Lemma heap_same_series_sample (s : list A) frac :
  heap_same (series_sample s frac).
Proof. unfold series_sample. same. Qed.
#[local] Hint Resolve heap_same_series_sample : same.

Lemma heap_same_shape0 df : heap_same (shape0 (A:=A) df).
Proof. unfold shape0. same. Qed.
#[local] Hint Resolve heap_same_shape0 : same.

(** Once a frame is the first new object, it stays there. *)
Lemma new_frame_kept {Y} (o : object A) (k : loc -> M A Y) w r w' :
  (forall l, preserves_heap (k l)) ->
  (l ← alloc o; k l) w = (Ok r, w') ->
  heap w' !! length (heap w) = Some o.
Proof.
  intros Hpres Hrun.
  apply bind_Ok_inv in Hrun as (l & w2 & Halloc & Hk).
  injection Halloc as <- <-.
  pose proof (Hpres (length (heap w)) (alloc o w).2) as Hprefix.
  simpl in Hprefix. rewrite Hk in Hprefix.
  eapply prefix_lookup_Some; [|exact Hprefix].
  by apply list_lookup_middle.
Qed.

Lemma assign_Ok_inv df name (col : list A) w l w' :
  assign df name col w = (Ok l, w') ->
  exists d', heap w' !! length (heap w) = Some (ODataFrame d') /\
             length (heap w) < length (heap w').
Proof.
  unfold assign. intros Hrun.
  apply bind_Ok_inv in Hrun as (d & w1 & Hd & Hrun).
  pose proof (heap_same_deref_frame df w) as Hheap.
  rewrite Hd in Hheap. simpl in Hheap. rewrite <- Hheap.
  case_decide; [|done]. injection Hrun as <- <-.
  exists (with_column d name col). simpl. split.
  - by apply list_lookup_middle.
  - rewrite length_app. simpl. lia.
Qed.

Lemma new_frame_after {X Y} (m0 : M A X) (m1 : X -> M A loc)
    (k : loc -> M A Y) w (r : Y) w' :
  heap_same m0 ->
  (forall x w1 l w2, m1 x w1 = (Ok l, w2) ->
     exists d', heap w2 !! length (heap w1) = Some (ODataFrame d')) ->
  (forall l, preserves_heap (k l)) ->
  (x ← m0; l ← m1 x; k l) w = (Ok r, w') ->
  exists d', heap w' !! length (heap w) = Some (ODataFrame d').
Proof.
  intros Hsame Hnew Hpres Hrun.
  apply bind_Ok_inv in Hrun as (x & w1 & Hm0 & Hrun).
  apply bind_Ok_inv in Hrun as (l & w2 & Hm1 & Hk).
  pose proof (Hsame w) as Hheap. rewrite Hm0 in Hheap. simpl in Hheap.
  destruct (Hnew _ _ _ _ Hm1) as [d' Hd']. exists d'.
  rewrite <- Hheap.
  pose proof (Hpres l w2) as Hprefix. rewrite Hk in Hprefix.
  by eapply prefix_lookup_Some.
Qed.

Lemma derives_random df ce w :
  derives_new_frame w (refute_estimate_random (A:=A) df ce w).
Proof.
  intros r Hr. destruct (refute_estimate_random df ce w) as [r' w'] eqn:Hrun.
  simpl in *. subst r'. unfold refute_estimate_random in Hrun.
  rewrite <- bind_assoc in Hrun.
  eapply new_frame_after in Hrun; [done|..].
  - same.
  - intros x w1 l w2 Hassign.
    apply assign_Ok_inv in Hassign as (d' & Hd' & _). by exists d'.
  - intros l. frame.
Qed.

Lemma derives_placebo_step df placebo_type num_rows (refute : A) w r w' :
  placebo_step df placebo_type num_rows refute w = (Ok r, w') ->
  exists d', heap w' !! length (heap w) = Some (ODataFrame d').
Proof.
  unfold placebo_step. intros Hrun.
  eapply new_frame_after in Hrun; [done|..].
  - same.
  - intros x w1 l w2 Hassign.
    apply assign_Ok_inv in Hassign as (d' & Hd' & _). by exists d'.
  - intros l. frame.
Qed.

Lemma derives_placebo df ce placebo_type sims w :
  (0 < default 100 sims)%Z ->
  derives_new_frame w (refute_estimate_placebo (A:=A) df ce placebo_type sims w).
Proof.
  intros Hsims r Hr.
  destruct (refute_estimate_placebo df ce placebo_type sims w)
    as [r' w'] eqn:Hrun.
  simpl in *. subst r'. unfold refute_estimate_placebo in Hrun.
  apply bind_Ok_inv in Hrun as (num_rows & w1 & Hshape & Hrun).
  assert (Hw1 : heap w1 = heap w).
  { pose proof (heap_same_shape0 df w) as Hheap.
    by rewrite Hshape in Hheap. }
  apply bind_Ok_inv in Hrun as (refute & w2 & Hloop & Hdiv).
  assert (Hw2 : w' = w2) by (case_decide; [done|]; by inversion Hdiv).
  subst w'. rewrite <- Hw1.
  destruct (Z.to_nat (default 100%Z sims)) as [|n] eqn:Hn; [lia|].
  simpl in Hloop.
  apply bind_Ok_inv in Hloop as (refute' & w3 & Hstep & Hrest).
  apply derives_placebo_step in Hstep as [d' Hd']. exists d'.
  pose proof (preserves_placebo_loop df (default "permte" placebo_type)
                num_rows n refute' w3) as Hprefix.
  rewrite Hrest in Hprefix. by eapply prefix_lookup_Some.
Qed.

Lemma derives_subset df ce frac w :
  derives_new_frame w (refute_estimate_subset (A:=A) df ce frac w).
Proof.
  intros r Hr. destruct (refute_estimate_subset df ce frac w) as [r' w'] eqn:Hrun.
  simpl in *. subst r'. unfold refute_estimate_subset, frame_sample in Hrun.
  rewrite bind_assoc in Hrun.
  apply bind_Ok_inv in Hrun as (d & w1 & Hd & Hrun).
  rewrite bind_assoc in Hrun.
  apply bind_Ok_inv in Hrun as (size & w2 & Hsize & Hrun).
  rewrite bind_assoc in Hrun.
  apply bind_Ok_inv in Hrun as (idx & w3 & Hidx & Hrun).
  assert (Hw3 : heap w3 = heap w).
  { pose proof (heap_same_choice (nrows d) size w2) as H3.
    pose proof (heap_same_lift (sample_size (default (8 # 10)%Q frac) (nrows d)) w1)
      as H2.
    pose proof (heap_same_deref_frame df w) as H1.
    rewrite Hidx in H3. rewrite Hsize in H2. rewrite Hd in H1.
    simpl in *. congruence. }
  exists (take_rows d idx). rewrite <- Hw3.
  eapply new_frame_kept; [|exact Hrun].
  intros l'. frame.
Qed.

(** C6: no refutation strategy changes an object that exists when it is
    called, whether it returns or raises: the frame [df] refers to keeps
    its rows and columns (and so its row and column counts), and the
    baseline estimate keeps its value.  A call that returns a value has
    derived a new frame, the first object it created. *)
Theorem refuters_do_not_mutate w df ce placebo_type sims frac l o :
  heap w !! l = Some o ->
  (0 < default 100 sims)%Z ->
  let random := refute_estimate_random df ce w in
  let placebo := refute_estimate_placebo df ce placebo_type sims w in
  let subset := refute_estimate_subset df ce frac w in
  (heap random.2 !! l = Some o /\ derives_new_frame w random) /\
  (heap placebo.2 !! l = Some o /\ derives_new_frame w placebo) /\
  (heap subset.2 !! l = Some o /\ derives_new_frame w subset).
Proof.
  intros Hl Hsims. simpl. repeat split.
  - eapply prefix_lookup_Some; [exact Hl|apply preserves_random].
  - apply derives_random.
  - eapply prefix_lookup_Some; [exact Hl|apply preserves_placebo].
  - by apply derives_placebo.
  - eapply prefix_lookup_Some; [exact Hl|apply preserves_subset].
  - apply derives_subset.
Qed.

Lemma placebo_loop_gaussian df placebo_type num_rows n (refute : A) w :
  placebo_type <> "permute" ->
  placebo_loop df placebo_type num_rows n refute w =
  gaussian_placebo_loop df num_rows n refute w.
Proof.
  intros Hne. revert refute w.
  induction n as [|n IH]; intros refute w; [done|]. simpl.
  unfold placebo_step. rewrite decide_False by done.
  rewrite bind_assoc. apply bind_ext. intros new_treatment w1.
  rewrite bind_assoc. apply bind_ext. intros new_data w2.
  rewrite bind_assoc. apply bind_ext. intros new_estimate w3.
  rewrite bind_assoc. apply bind_ext. intros val w4.
  apply IH.
Qed.

Lemma swap_head (a b : nat) (t : list nat) j :
  t !! j = Some b -> b :: <[j := a]> t ≡ₚ a :: t.
Proof.
  revert j. induction t as [|h t IH]; intros [|j] Hj; simplify_eq/=.
  - apply perm_swap.
  - rewrite (perm_swap h b), (IH _ Hj). apply perm_swap.
Qed.

Lemma swap_Permutation (x : list nat) i j : swap x i j ≡ₚ x.
Proof.
  unfold swap.
  destruct (x !! j) as [xj|] eqn:Hj; [|done].
  destruct (x !! i) as [xi|] eqn:Hi; [|done].
  revert i j Hi Hj. induction x as [|h t IH]; intros [|i] [|j] Hi Hj;
    simplify_eq/=.
  - done.
  - by apply swap_head.
  - by apply swap_head.
  - f_equiv. by apply IH.
Qed.

(** Shuffling returns a rearrangement, touches no object and only moves
    along the tapes. *)
Lemma shuffle_from_run i (x : list nat) w :
  exists x' n,
    shuffle_from i x w =
      (Ok x', {| heap := heap w; np_random := advance (np_random w) n |}) /\
    x' ≡ₚ x.
Proof.
  revert x w. induction i as [|i IH]; intros x w.
  - exists x, 0. split; [|done]. simpl. unfold mret, M_ret.
    destruct w as [hp [g t p]]. unfold advance. simpl.
    by rewrite Nat.add_0_r.
  - simpl. rewrite bind_run. unfold random_interval. simpl.
    match goal with |- context [shuffle_from i ?y ?w'] =>
      destruct (IH y w') as (x' & n & Hrun & Hperm) end.
    exists x', (1 + n). split.
    + rewrite Hrun. simpl. unfold advance. simpl.
      do 3 f_equal. lia.
    + by rewrite Hperm, swap_Permutation.
Qed.

Lemma sample_size_all n : sample_size_int 1 n = Ok n.
Proof.
  unfold sample_size_int. cbn [Z.ltb Z.compare Pos.compare Pos.compare_cont].
  f_equal. lia.
Qed.

Lemma take_idx_all {X} (a : list X) : take_idx a (seq 0 (length a)) = a.
Proof.
  unfold take_idx. induction a as [|x a IH] using rev_ind; [done|].
  rewrite length_app. simpl. rewrite Nat.add_1_r, seq_S. simpl.
  rewrite omap_app. simpl. rewrite list_lookup_middle by done. simpl.
  f_equal. rewrite <- IH at 2.
  apply list_omap_ext.
  apply Forall2_same_length_lookup_2; [done|].
  intros i j k Hj Hk. simplify_eq.
  apply lookup_seq in Hj as [-> Hlt]. simpl.
  by rewrite lookup_app_l.
Qed.

Lemma take_idx_Permutation {X} (a : list X) idx :
  idx ≡ₚ seq 0 (length a) -> take_idx a idx ≡ₚ a.
Proof.
  intros Hperm. rewrite <- (take_idx_all a) at 2.
  unfold take_idx. by rewrite Hperm.
Qed.

(** [series.sample(frac=1).values] is a rearrangement of the series. *)
Lemma series_sample_all (s : list A) w :
  exists idx n,
    series_sample s 1 w =
      (Ok (take_idx s idx),
       {| heap := heap w; np_random := advance (np_random w) n |}) /\
    idx ≡ₚ seq 0 (length s).
Proof.
  unfold series_sample. rewrite bind_run. unfold lift.
  rewrite sample_size_all. unfold choice, permutation, shuffle.
  destruct (shuffle_from_run (length (seq 0 (length s)) - 1)
              (seq 0 (length s)) w) as (idx & n & Hrun & Hperm).
  exists idx, n. split; [|done].
  rewrite !bind_run, Hrun. simpl. unfold mret, M_ret. do 3 f_equal.
  apply firstn_all2. by rewrite Hperm, length_seq.
Qed.

Lemma placebo_step_run w df d v placebo_type (refute : A) :
  heap w !! df = Some (ODataFrame d) ->
  wf_frame d ->
  columns d !! "v" = Some v ->
  exists col rs',
    (if decide (placebo_type = "permute") then col ≡ₚ v
     else col = noise_column (np_random w) (nrows d) 0 /\
          rs' = advance (np_random w) (nrows d)) /\
    placebo_step df placebo_type (nrows d) refute w =
    match placebo_estimate d col with
    | Ok est =>
        (Ok (fadd refute est),
         {| heap := heap w ++ [ODataFrame (with_column d "placebo" col);
                               OEstimate {| value := est |}];
            np_random := rs' |})
    | Raise e =>
        (Raise e,
         {| heap := heap w ++ [ODataFrame (with_column d "placebo" col)];
            np_random := rs' |})
    end.
Proof.
  intros Hd Hwf Hv. unfold placebo_step. case_decide as Hmode.
  - destruct (series_sample_all v w) as (idx & n & Hrun & Hperm).
    exists (take_idx v idx), (advance (np_random w) n).
    assert (Hcol : take_idx v idx ≡ₚ v) by by apply take_idx_Permutation.
    split; [done|].
    rewrite !bind_assoc, bind_run, (deref_frame_run _ _ _ Hd).
    rewrite bind_assoc, bind_run. unfold lift, getitem. rewrite Hv.
    rewrite bind_run, Hrun.
    rewrite bind_run, (assign_run _ df d) by (by rewrite ?Hcol; eauto).
    rewrite <- bind_run, estimate_of_new_frame. simpl.
    unfold placebo_estimate. by destruct (iv_estimate _ _).
  - exists (noise_column (np_random w) (nrows d) 0),
      (advance (np_random w) (nrows d)).
    split; [done|].
    rewrite randn_run.
    rewrite bind_run, (assign_run _ df d)
      by (by rewrite ?length_fmap, ?length_seq).
    rewrite <- bind_run, estimate_of_new_frame. simpl.
    unfold placebo_estimate, noise_column. rewrite Nat.add_0_r.
    by destruct (iv_estimate _ _).
Qed.

Lemma noise_column_advance (rs : RandomState A) n i :
  noise_column (advance rs n) n i = noise_column rs n (S i).
Proof. unfold noise_column. simpl. do 2 f_equal. lia. Qed.

Lemma mapM_cons_result {X Y Z} (f : X -> result Y) x xs
    (k : list Y -> result Z) :
  (ys ← mapM f (x :: xs); k ys) = (y ← f x; ys ← mapM f xs; k (y :: ys)).
Proof.
  simpl. destruct (f x) as [y|e]; simpl; [|done].
  by destruct (mapM f xs).
Qed.

Lemma placebo_loop_run df d v placebo_type n (refute : A) w :
  heap w !! df = Some (ODataFrame d) ->
  wf_frame d ->
  columns d !! "v" = Some v ->
  exists cols,
    length cols = n /\
    placebo_columns placebo_type v (np_random w) (nrows d) cols /\
    (placebo_loop df placebo_type (nrows d) n refute w).1 =
      (ests ← mapM (placebo_estimate d) cols;
       mret (fold_left fadd ests refute)).
Proof.
  intros Hd Hwf Hv. revert refute w Hd.
  induction n as [|n IH]; intros refute w Hd.
  { exists []. repeat split. unfold placebo_columns. by case_decide. }
  destruct (placebo_step_run w df d v placebo_type refute Hd Hwf Hv)
    as (col & rs' & Hcol & Hstep).
  simpl. rewrite bind_run, Hstep.
  destruct (placebo_estimate d col) as [est|e] eqn:Hest.
  - match goal with |- context [placebo_loop _ _ _ n ?r ?w'] =>
      destruct (IH r w') as (cols & Hlen & Hcols & Hrun) end.
    { simpl. by apply lookup_app_l_Some. }
    exists (col :: cols). split; [by rewrite <- Hlen|]. split.
    + unfold placebo_columns in *. case_decide.
      * by apply Forall_cons.
      * destruct Hcol as [-> ->]. simpl in *. f_equal.
        rewrite Hcols at 1. rewrite <- fmap_S_seq, <- list_fmap_compose.
        apply list_fmap_ext. intros i k _. simpl.
        apply noise_column_advance.
    + by rewrite Hrun, mapM_cons_result, Hest.
  - set (w' := {| heap := heap w ++ [ODataFrame (with_column d "placebo" col)];
                  np_random := rs' |}).
    destruct (IH refute w') as (cols & Hlen & Hcols & _).
    { simpl. by apply lookup_app_l_Some. }
    exists (col :: cols). split; [by rewrite <- Hlen|]. split.
    + unfold placebo_columns in *. case_decide.
      * by apply Forall_cons.
      * destruct Hcol as [-> ->]. simpl in *. f_equal.
        rewrite Hcols at 1. rewrite <- fmap_S_seq, <- list_fmap_compose.
        apply list_fmap_ext. intros i k _. simpl.
        apply noise_column_advance.
    + by rewrite mapM_cons_result, Hest.
Qed.

Lemma mapM_result_length {X Y} (f : X -> result Y) xs ys :
  mapM f xs = Ok ys -> length ys = length xs.
Proof.
  revert ys. induction xs as [|x xs IH]; intros ys Hys; simpl in Hys.
  - by inversion Hys.
  - destruct (f x) as [y|e]; [|done]. simpl in Hys.
    destruct (mapM f xs) as [ys'|e]; [|done]. simpl in Hys.
    inversion Hys. simpl. f_equal. by apply IH.
Qed.

Lemma advance_0 (rs : RandomState A) : advance rs 0 = rs.
Proof. destruct rs as [g t p]. unfold advance. simpl. by rewrite Nat.add_0_r. Qed.

Lemma advance_advance (rs : RandomState A) a b :
  advance (advance rs a) b = advance rs (a + b).
Proof. unfold advance. simpl. f_equal. lia. Qed.

(** The shuffle reads one integer for each position from [i] down to 1. *)
Lemma shuffle_from_shuffled i (x : list nat) w :
  shuffle_from i x w =
    (Ok (shuffled (np_random w) i x),
     {| heap := heap w; np_random := advance (np_random w) i |}).
Proof.
  revert x w. induction i as [|i IH]; intros x w.
  - simpl. unfold mret, M_ret. rewrite advance_0. by destruct w.
  - cbn [shuffle_from shuffled]. rewrite bind_run. unfold random_interval.
    rewrite IH. cbn [heap np_random]. by rewrite advance_advance.
Qed.

Lemma shuffled_Permutation (rs : RandomState A) i x : shuffled rs i x ≡ₚ x.
Proof.
  revert rs x. induction i as [|i IH]; intros rs x; [done|].
  cbn [shuffled]. by rewrite IH, swap_Permutation.
Qed.

Lemma permuted_column_Permutation (rs : RandomState A) (v : list A) i :
  permuted_column rs v i ≡ₚ v.
Proof.
  apply take_idx_Permutation, shuffled_Permutation.
Qed.

(** [series.sample(frac=1).values]: the series at the shuffled
    positions. *)
Lemma series_sample_run (s : list A) w :
  series_sample s 1 w =
    (Ok (take_idx s
           (shuffled (np_random w) (length s - 1) (seq 0 (length s)))),
     {| heap := heap w;
        np_random := advance (np_random w) (length s - 1) |}).
Proof.
  unfold series_sample. rewrite bind_run. unfold lift.
  rewrite sample_size_all. unfold choice, permutation, shuffle.
  rewrite !bind_run, length_seq, shuffle_from_shuffled.
  unfold mret, M_ret. do 3 f_equal.
  apply firstn_all2. by rewrite shuffled_Permutation, length_seq.
Qed.

Lemma simulates_noise df d placebo_type :
  placebo_type <> "permute" ->
  simulates df d placebo_type
    (fun rs => noise_column rs (nrows d) 0) (nrows d).
Proof.
  intros Hmode refute w Hd. unfold placebo_step.
  rewrite decide_False by done. rewrite randn_run.
  rewrite bind_run, (assign_run _ df d)
    by (by rewrite ?length_fmap, ?length_seq).
  rewrite <- bind_run, estimate_of_new_frame. simpl.
  unfold placebo_estimate, noise_column. rewrite Nat.add_0_r.
  by destruct (iv_estimate _ _).
Qed.

Lemma simulates_permute df d (v : list A) :
  columns d !! "v" = Some v ->
  length v = nrows d ->
  simulates df d "permute" (fun rs => permuted_column rs v 0)
    (length v - 1).
Proof.
  intros Hv Hlen refute w Hd. unfold placebo_step.
  rewrite decide_True by done.
  assert (Hcol : permuted_column (np_random w) v 0 =
                 take_idx v (shuffled (np_random w) (length v - 1)
                               (seq 0 (length v))))
    by (unfold permuted_column; by rewrite advance_0).
  rewrite !bind_assoc, bind_run, (deref_frame_run _ _ _ Hd).
  rewrite bind_assoc, bind_run. unfold lift, getitem. rewrite Hv.
  rewrite bind_run, series_sample_run, <- Hcol.
  rewrite bind_run, (assign_run _ df d)
    by (by rewrite ?permuted_column_Permutation; eauto).
  rewrite <- bind_run, estimate_of_new_frame. simpl.
  unfold placebo_estimate. by destruct (iv_estimate _ _).
Qed.

(** The loop: simulation [i] starts [i * draws] positions further on the
    tapes, and the total stops at the first estimator that raises. *)
Lemma placebo_loop_columns df d placebo_type col draws n (refute : A) w :
  simulates df d placebo_type col draws ->
  heap w !! df = Some (ODataFrame d) ->
  (placebo_loop df placebo_type (nrows d) n refute w).1 =
    (ests ← mapM (placebo_estimate d)
              ((fun i => col (advance (np_random w) (i * draws)))
                 <$> seq 0 n);
     mret (fold_left fadd ests refute)).
Proof.
  intros Hstep. revert refute w.
  induction n as [|n IH]; intros refute w Hd; [done|].
  cbn [placebo_loop]. rewrite bind_run, (Hstep refute w Hd).
  cbn [seq fmap list_fmap]. rewrite mapM_cons_result.
  change (0 * draws) with 0. rewrite advance_0.
  destruct (placebo_estimate d (col (np_random w))) as [est|e]; [|done].
  rewrite IH by (simpl; by apply lookup_app_l_Some).
  cbn [np_random mbind result_bind].
  rewrite <- fmap_S_seq, <- list_fmap_compose.
  erewrite (list_fmap_ext _ _ (seq 0 n)); [done|].
  intros i k _. simpl. by rewrite advance_advance.
Qed.

Lemma placebo_mean_of_total w df ce d placebo_type sims cols :
  heap w !! df = Some (ODataFrame d) ->
  (0 < default 100 sims)%Z ->
  length cols = Z.to_nat (default 100%Z sims) ->
  (placebo_loop df (default "permte" placebo_type) (nrows d)
     (Z.to_nat (default 100%Z sims)) (of_int 0) w).1 =
    (ests ← mapM (placebo_estimate d) cols;
     mret (fold_left fadd ests (of_int 0))) ->
  (refute_estimate_placebo df ce placebo_type sims w).1 =
    (ests ← mapM (placebo_estimate d) cols; mret (np_mean ests)).
Proof.
  intros Hd Hsims Hlen Hrun. unfold refute_estimate_placebo.
  rewrite (shape0_run _ _ _ _ Hd), bind_run.
  destruct (placebo_loop _ _ _ _ _ w) as [[refute|e] w'] eqn:Hloop;
    simpl in Hrun.
  - rewrite decide_False by lia. simpl.
    destruct (mapM (placebo_estimate d) cols) as [ests|e] eqn:Hests;
      [|done].
    simpl in *. inversion Hrun. unfold np_mean, np_sum.
    rewrite (mapM_result_length _ _ _ Hests), Hlen, Z2Nat.id by lia.
    done.
  - simpl. by destruct (mapM (placebo_estimate d) cols).
Qed.

(** C4: placebo-treatment refutation runs [sims] simulations (100 when
    the argument is omitted).  The placebo column of simulation [i] is,
    in any mode other than "permute", the [i]-th block of fresh
    standard-normal draws, and the frame needs no column "v"; in
    "permute" mode it is the treatment column "v" in the order of the
    [i]-th shuffle the generator yields, a rearrangement of "v".  Each
    simulation re-runs the estimator with its column as the treatment,
    and the result is the mean of the estimates of the simulations (or
    the exception of the first simulation whose estimator raises). *)
Theorem placebo_refutation_mean w df ce d placebo_type sims :
  heap w !! df = Some (ODataFrame d) ->
  (0 < default 100 sims)%Z ->
  (default "permte" placebo_type <> "permute" ->
     (refute_estimate_placebo df ce placebo_type sims w).1 =
       (ests ← mapM (placebo_estimate d)
                 (noise_column (np_random w) (nrows d)
                    <$> seq 0 (Z.to_nat (default 100%Z sims)));
        mret (np_mean ests))) /\
  (default "permte" placebo_type = "permute" ->
     forall v,
       columns d !! "v" = Some v ->
       wf_frame d ->
       Forall (fun col => col ≡ₚ v)
         (permuted_column (np_random w) v
            <$> seq 0 (Z.to_nat (default 100%Z sims))) /\
       (refute_estimate_placebo df ce placebo_type sims w).1 =
         (ests ← mapM (placebo_estimate d)
                   (permuted_column (np_random w) v
                      <$> seq 0 (Z.to_nat (default 100%Z sims)));
          mret (np_mean ests))).
Proof.
  intros Hd Hsims. split.
  - intros Hmode.
    apply placebo_mean_of_total; [done|done|by rewrite length_fmap, length_seq|].
    rewrite (placebo_loop_columns _ _ _ _ _ _ _ _
               (simulates_noise df d _ Hmode) Hd).
    erewrite (list_fmap_ext _ (noise_column (np_random w) (nrows d)));
      [done|].
    intros i k _. unfold noise_column. simpl. do 2 f_equal. lia.
  - intros Hmode v Hv Hwf. split.
    { apply Forall_fmap, Forall_forall. intros i _. simpl.
      apply permuted_column_Permutation. }
    apply placebo_mean_of_total; [done|done|by rewrite length_fmap, length_seq|].
    rewrite Hmode.
    rewrite (placebo_loop_columns _ _ _ _ _ _ _ _
               (simulates_permute df d v Hv (Hwf _ _ Hv)) Hd).
    erewrite (list_fmap_ext _ (permuted_column (np_random w) v));
      [done|].
    intros i k _. unfold permuted_column.
    change (0 * (length v - 1)) with 0. by rewrite advance_0.
Qed.

Lemma placebo_estimate_ok d (col : list A) :
  is_Some (columns d !! "Z0") ->
  is_Some (columns d !! "y") ->
  exists est, placebo_estimate d col = Ok est.
Proof.
  intros [z Hz] [y Hy]. unfold placebo_estimate.
  erewrite (iv_estimate_columns _ "placebo" z y col); [by eexists|..]; simpl.
  - by rewrite lookup_insert_ne.
  - by rewrite lookup_insert_ne.
  - by rewrite lookup_insert_eq.
Qed.

Lemma gaussian_placebo_loop_ok df d n (refute : A) w :
  heap w !! df = Some (ODataFrame d) ->
  is_Some (columns d !! "Z0") ->
  is_Some (columns d !! "y") ->
  exists r w', gaussian_placebo_loop df (nrows d) n refute w = (Ok r, w').
Proof.
  intros Hd Hz Hy. revert refute w Hd.
  induction n as [|n IH]; intros refute w Hd; [by eexists _, _|].
  simpl. rewrite randn_run.
  rewrite bind_run, (assign_run _ df d)
    by (by rewrite ?length_fmap, ?length_seq).
  rewrite <- bind_run, estimate_of_new_frame. simpl.
  match goal with |- context [with_column d "placebo" ?c] =>
    destruct (placebo_estimate_ok d c Hz Hy) as [est Hest] end.
  unfold placebo_estimate in Hest. rewrite Hest.
  apply IH. simpl. by apply lookup_app_l_Some.
Qed.

(** C5: every placebo mode other than the literal "permute" takes the
    Gaussian-noise branch, the mode of an omitted argument ("permte")
    included: the call is the always-noise refutation, and on a frame
    with the columns "Z0" and "y" it returns a value, no exception. *)
Theorem placebo_type_fallthrough w df ce d placebo_type sims :
  default "permte" placebo_type <> "permute" ->
  heap w !! df = Some (ODataFrame d) ->
  is_Some (columns d !! "Z0") ->
  is_Some (columns d !! "y") ->
  default 100%Z sims <> 0%Z ->
  refute_estimate_placebo df ce placebo_type sims w =
    gaussian_placebo df (default 100%Z sims) w /\
  exists r, (refute_estimate_placebo df ce placebo_type sims w).1 = Ok r.
Proof.
  intros Hmode Hd Hz Hy Hsims.
  assert (Heq : refute_estimate_placebo df ce placebo_type sims w =
                gaussian_placebo df (default 100%Z sims) w).
  { unfold refute_estimate_placebo, gaussian_placebo.
    apply bind_ext. intros num_rows w1.
    rewrite !bind_run. by rewrite placebo_loop_gaussian. }
  split; [done|]. rewrite Heq. unfold gaussian_placebo.
  rewrite (shape0_run _ _ _ _ Hd), bind_run.
  destruct (gaussian_placebo_loop_ok df d
              (Z.to_nat (default 100%Z sims)) (of_int 0) w Hd Hz Hy)
    as (r & w' & ->).
  rewrite decide_False by done. by eexists.
Qed.

(** ** Subsets of the rows *)

Lemma py_round_comp (x y : Q) : (x == y)%Q -> py_round x = py_round y.
Proof.
  intros Hxy. unfold py_round. rewrite (Qfloor_comp _ _ Hxy).
  by rewrite Hxy.
Qed.

Lemma py_round_inject (z : Z) : py_round (inject_Z z) = z.
Proof.
  unfold py_round. rewrite Qfloor_Z.
  assert (Hlt : (inject_Z z - inject_Z z ?= 1 # 2)%Q = Lt).
  { apply Qlt_alt.
    assert (Hz : (inject_Z z - inject_Z z == 0)%Q) by ring.
    by rewrite Hz. }
  by rewrite Hlt.
Qed.

Lemma py_round_nonneg (x : Q) : (0 <= x)%Q -> (0 <= py_round x)%Z.
Proof.
  intros Hx. pose proof (Qfloor_resp_le _ _ Hx) as Hf.
  change 0%Q with (inject_Z 0) in Hf. rewrite Qfloor_Z in Hf.
  unfold py_round. destruct (Qcompare _ _); [destruct (Z.even _)|..]; lia.
Qed.

Lemma py_round_upper (x : Q) (N : Z) :
  (x <= inject_Z N)%Q -> (py_round x <= N)%Z.
Proof.
  intros Hx. pose proof (Qfloor_resp_le _ _ Hx) as Hf.
  rewrite Qfloor_Z in Hf. unfold py_round.
  destruct (Qcompare_spec (x - inject_Z (Qfloor x)) (1 # 2))
    as [Heq|Hlt|Hgt]; [|done|].
  - assert ((Qfloor x < N)%Z) by (rewrite Zlt_Qlt; lra).
    destruct (Z.even _); lia.
  - assert ((Qfloor x < N)%Z) by (rewrite Zlt_Qlt; lra).
    lia.
Qed.

Lemma binary64_comp (x y : Q) : (x == y)%Q -> binary64 x = binary64 y.
Proof. intros Hxy. unfold binary64. by rewrite (Qred_complete _ _ Hxy). Qed.

Lemma ratio_bounds (m P : Z) :
  (0 <= m <= P)%Z -> (0 < P)%Z ->
  (0 <= inject_Z m / inject_Z P)%Q /\ (inject_Z m / inject_Z P <= 1)%Q.
Proof.
  intros [Hm HmP] HP.
  assert (HPq : (0 < inject_Z P)%Q)
    by (change 0%Q with (inject_Z 0); by rewrite <- Zlt_Qlt).
  split.
  - apply Qle_shift_div_l; [done|]. rewrite Qmult_0_l.
    change 0%Q with (inject_Z 0). by rewrite <- Zle_Qle.
  - apply Qle_shift_div_r; [done|]. rewrite Qmult_1_l.
    by rewrite <- Zle_Qle.
Qed.

Lemma binary64_pos_range (q : Q) :
  (0 < q)%Q -> (q <= 1)%Q ->
  (0 <= binary64_pos q)%Q /\ (binary64_pos q <= 1)%Q.
Proof.
  intros Hpos Hle. unfold binary64_pos.
  set (k0 := (Z.log2 (Qnum q) - Z.log2 (Z.pos (Qden q)) - 52)%Z).
  set (k1 := if Qlt_le_dec _ _ then _ else _).
  assert (Hk0 : (k0 <= -52)%Z).
  { assert (Hnd : (Qnum q <= Z.pos (Qden q))%Z)
      by (unfold Qle in Hle; simpl in Hle; lia).
    pose proof (Z.log2_le_mono _ _ Hnd). unfold k0. lia. }
  assert (Hk1 : (k1 <= -52)%Z) by (unfold k1; destruct (Qlt_le_dec _ _); lia).
  set (k := Z.max k1 (-1074)).
  assert (Hk : (k < 0)%Z) by (unfold k; lia).
  unfold scale2.
  destruct (Z.leb_spec 0 (- k)); [|lia].
  destruct (Z.leb_spec 0 k); [lia|].
  assert (HP : (0 < 2 ^ (- k))%Z) by (apply Z.pow_pos_nonneg; lia).
  assert (HPq : (0 < inject_Z (2 ^ (- k)))%Q)
    by (change 0%Q with (inject_Z 0); by rewrite <- Zlt_Qlt).
  apply ratio_bounds; [|done]. split.
  - apply py_round_nonneg. apply Qmult_le_0_compat; lra.
  - apply py_round_upper.
    rewrite <- (Qmult_1_l (inject_Z (2 ^ (- k)))) at 2.
    apply Qmult_le_compat_r; lra.
Qed.

Lemma binary64_range (q : Q) :
  (0 <= q)%Q -> (q <= 1)%Q -> (0 <= binary64 q)%Q /\ (binary64 q <= 1)%Q.
Proof.
  intros Hlo Hhi. unfold binary64.
  pose proof (Qred_correct q) as Hred.
  destruct (Qcompare_spec (Qred q) 0) as [Heq|Hlt|Hgt].
  - split; lra.
  - lra.
  - rewrite Qred_correct. apply binary64_pos_range; lra.
Qed.

Lemma scale2_int (n k : Z) :
  (k <= 0)%Z -> (scale2 (inject_Z n) k == inject_Z (n * 2 ^ (- k)))%Q.
Proof.
  intros Hk. unfold scale2. destruct (Z.leb_spec 0 k).
  - assert (k = 0%Z) as -> by lia.
    change (2 ^ (- 0))%Z with 1%Z. change (2 ^ 0)%Z with 1%Z.
    rewrite Z.mul_1_r. unfold Qdiv. change (/ inject_Z 1)%Q with 1%Q.
    apply Qmult_1_r.
  - by rewrite inject_Z_mult.
Qed.

Lemma binary64_small_int (n : Z) :
  (0 <= n < 2 ^ 53)%Z -> binary64 (inject_Z n) = inject_Z n.
Proof.
  intros [Hlo Hhi].
  assert (Hred : forall z, Qred (inject_Z z) = inject_Z z).
  { intros z. apply Qred_identity. cbn. apply Z.gcd_1_r. }
  unfold binary64. rewrite Hred.
  destruct (Z.eq_dec n 0%Z) as [->|Hn]; [done|].
  assert (Hpos : (0 < n)%Z) by lia.
  assert (Hgt : (inject_Z n ?= 0)%Q = Gt).
  { apply Qgt_alt. change 0%Q with (inject_Z 0). by rewrite <- Zlt_Qlt. }
  rewrite Hgt. rewrite <- (Hred n) at 2. apply Qred_complete.
  unfold binary64_pos. cbn [Qnum Qden inject_Z]. cbn [Z.log2].
  rewrite Z.sub_0_r.
  set (L := Z.log2 n).
  assert (HL : (0 <= L <= 52)%Z).
  { split; [apply Z.log2_nonneg|].
    assert (Z.log2 n < 53)%Z by (apply Z.log2_lt_pow2; lia). unfold L. lia. }
  pose proof (Z.log2_spec n Hpos) as [Hspec _]. fold L in Hspec.
  assert (Hscaled : (scale2 (inject_Z n) (L - 52)
                     == inject_Z (n * 2 ^ (52 - L)))%Q).
  { rewrite scale2_int by lia. by replace (- (L - 52))%Z with (52 - L)%Z by lia. }
  assert (Hbig : (2 ^ 52 <= n * 2 ^ (52 - L))%Z).
  { replace (2 ^ 52)%Z with (2 ^ L * 2 ^ (52 - L))%Z
      by (rewrite <- Z.pow_add_r by lia; f_equal; lia).
    apply Z.mul_le_mono_nonneg_r; [apply Z.pow_nonneg; lia|done]. }
  change (n # 1) with (inject_Z n).
  destruct (Qlt_le_dec _ _) as [Hlt|_].
  { rewrite Hscaled in Hlt. rewrite <- Zlt_Qlt in Hlt. lia. }
  rewrite Z.max_l by lia.
  rewrite (py_round_comp _ _ Hscaled), py_round_inject.
  unfold scale2.
  replace (0 <=? - (L - 52))%Z with true by (symmetry; apply Z.leb_le; lia).
  replace (- (L - 52))%Z with (52 - L)%Z by lia.
  rewrite inject_Z_mult. field.
  assert (0 < 2 ^ (52 - L))%Z by (apply Z.pow_pos_nonneg; lia).
  intros Hz. unfold Qeq in Hz. cbn [Qnum Qden inject_Z] in Hz. lia.
Qed.

Lemma scale2_nonpos (q : Q) (k : Z) :
  (k <= 0)%Z -> (scale2 q k == q * inject_Z (2 ^ (- k)))%Q.
Proof.
  intros Hk. unfold scale2. destruct (Z.leb_spec 0 k); [|reflexivity].
  assert (k = 0%Z) as -> by lia.
  change (2 ^ (- 0))%Z with 1%Z. change (2 ^ 0)%Z with 1%Z.
  unfold Qdiv. change (/ inject_Z 1)%Q with 1%Q. reflexivity.
Qed.

Lemma binary64_pos_upper (q : Q) (N : Z) :
  (0 < q)%Q -> (q <= inject_Z N)%Q -> (N < 2 ^ 53)%Z ->
  (binary64_pos q <= inject_Z N)%Q.
Proof.
  intros Hpos Hle HN. unfold binary64_pos.
  set (k0 := (Z.log2 (Qnum q) - Z.log2 (Z.pos (Qden q)) - 52)%Z).
  set (k1 := if Qlt_le_dec _ _ then _ else _).
  assert (Hnum : (0 < Qnum q)%Z) by (unfold Qlt in Hpos; simpl in Hpos; lia).
  assert (Hk0 : (k0 <= 1)%Z).
  { assert (Hnd : (Qnum q <= 2 ^ 53 * Z.pos (Qden q))%Z).
    { unfold Qle in Hle. cbn [Qnum Qden inject_Z] in Hle. nia. }
    pose proof (Z.log2_le_mono _ _ Hnd) as Hlog.
    rewrite Z.mul_comm, Z.log2_mul_pow2 in Hlog by lia.
    unfold k0. lia. }
  assert (Hq : (q < inject_Z (2 ^ 53))%Q).
  { eapply Qle_lt_trans; [exact Hle|]. by rewrite <- Zlt_Qlt. }
  assert (Hk1 : (k1 <= 0)%Z).
  { unfold k1. destruct (Qlt_le_dec _ _) as [_|Hge]; [lia|].
    destruct (Z.eq_dec k0 1%Z) as [Hone|]; [|lia].
    rewrite Hone in Hge. unfold scale2 in Hge. cbn [Z.leb Z.compare] in Hge.
    change (inject_Z (2 ^ 1)) with 2%Q in Hge.
    change (inject_Z (2 ^ 52)) with (inject_Z 4503599627370496) in Hge.
    change (inject_Z (2 ^ 53)) with (inject_Z 9007199254740992) in Hq.
    unfold inject_Z in *. 
    assert (q / 2 < 4503599627370496 # 1)%Q; [|lra].
    apply Qlt_shift_div_r; [lra|]. lra. }
  set (k := Z.max k1 (-1074)).
  assert (Hk : (k <= 0)%Z) by (unfold k; lia).
  assert (HP : (0 < 2 ^ (- k))%Z) by (apply Z.pow_pos_nonneg; lia).
  assert (HPq : (0 < inject_Z (2 ^ (- k)))%Q)
    by (change 0%Q with (inject_Z 0); by rewrite <- Zlt_Qlt).
  unfold scale2 at 1.
  destruct (Z.leb_spec 0 (- k)); [|lia].
  apply Qle_shift_div_r; [done|].
  rewrite <- inject_Z_mult, <- Zle_Qle. apply py_round_upper.
  rewrite scale2_nonpos, inject_Z_mult by done.
  apply Qmult_le_compat_r; lra.
Qed.

Lemma binary64_upper (q : Q) (N : Z) :
  (0 <= q)%Q -> (q <= inject_Z N)%Q -> (N < 2 ^ 53)%Z ->
  (binary64 q <= inject_Z N)%Q.
Proof.
  intros Hlo Hhi HN. unfold binary64.
  pose proof (Qred_correct q) as Hred.
  destruct (Qcompare_spec (Qred q) 0) as [Heq|Hlt|Hgt].
  - lra.
  - lra.
  - rewrite Qred_correct. apply binary64_pos_upper; [done|lra|done].
Qed.

Lemma sample_size_in_range frac n :
  (0 <= frac)%Q -> (frac <= 1)%Q ->
  sample_size frac n = Ok (sample_count frac n).
Proof.
  intros Hlo Hhi. unfold sample_size.
  destruct (binary64_range frac Hlo Hhi) as [Hlo' Hhi'].
  destruct (Qlt_le_dec 1 _) as [Hlt|_]; [lra|].
  by destruct (Qlt_le_dec _ 0) as [Hlt|_]; [lra|].
Qed.

(** Fraction 1.0 of a row count that binary64 holds exactly is the row
    count. *)
Lemma sample_count_all n :
  (Z.of_nat n < 2 ^ 53)%Z -> sample_count 1 n = n.
Proof.
  intros Hn. unfold sample_count.
  rewrite (binary64_small_int (Z.of_nat n)) by lia.
  change (binary64 1) with 1%Q.
  rewrite (binary64_comp _ (inject_Z (Z.of_nat n))) by ring.
  rewrite (binary64_small_int (Z.of_nat n)) by lia.
  by rewrite py_round_inject, Nat2Z.id.
Qed.

(** The product is rounded twice: 0.575 is held as a binary64 number
    just below 575/1000, its product with 100 comes out below 57.5, and
    the sample has 57 rows, not the 58 of the exact product.  The
    hardware product agrees. *)
Lemma sample_count_rounds_binary64 :
  sample_count (575 # 1000) 100 = 57 /\
  Z.to_nat (py_round ((575 # 1000) * inject_Z 100)) = 58 /\
  PrimFloat.ltb (575 / 1000 * 100) 57.5 = true /\
  PrimFloat.ltb 57 (575 / 1000 * 100) = true.
Proof. repeat split; vm_compute; reflexivity. Qed.

(** A sample of a fraction of the rows has no more rows than there are. *)
Lemma sample_count_le frac n :
  (0 <= frac)%Q -> (frac <= 1)%Q -> (Z.of_nat n < 2 ^ 53)%Z ->
  sample_count frac n ≤ n.
Proof.
  intros Hlo Hhi Hn. unfold sample_count.
  destruct (binary64_range frac Hlo Hhi) as [Hlo' Hhi'].
  rewrite (binary64_small_int (Z.of_nat n)) by lia.
  assert (Hn0 : (0 <= inject_Z (Z.of_nat n))%Q).
  { change 0%Q with (inject_Z 0). rewrite <- Zle_Qle. lia. }
  assert (Hprod : (binary64 frac * inject_Z (Z.of_nat n)
                   <= inject_Z (Z.of_nat n))%Q).
  { rewrite <- (Qmult_1_l (inject_Z (Z.of_nat n))) at 2.
    by apply Qmult_le_compat_r. }
  pose proof (binary64_upper _ _ (Qmult_le_0_compat _ _ Hlo' Hn0) Hprod Hn)
    as Hup.
  apply py_round_upper in Hup. lia.
Qed.

Lemma choice_run n size w :
  exists perm k,
    choice (A:=A) n size w =
      (Ok (take size perm),
       {| heap := heap w; np_random := advance (np_random w) k |}) /\
    perm ≡ₚ seq 0 n.
Proof.
  unfold choice, permutation, shuffle.
  destruct (shuffle_from_run (length (seq 0 n) - 1) (seq 0 n) w)
    as (perm & k & Hrun & Hperm).
  exists perm, k. by rewrite bind_run, Hrun.
Qed.

Lemma refute_estimate_subset_run w df ce d frac :
  heap w !! df = Some (ODataFrame d) ->
  (0 <= default (8 # 10) frac)%Q ->
  (default (8 # 10) frac <= 1)%Q ->
  exists perm,
    perm ≡ₚ seq 0 (nrows d) /\
    length perm = nrows d /\
    (refute_estimate_subset df ce frac w).1 =
      iv_estimate
        (take_rows d
           (take (sample_count (default (8 # 10)%Q frac) (nrows d)) perm))
        "v".
Proof.
  intros Hd Hlo Hhi. unfold refute_estimate_subset, frame_sample.
  rewrite !bind_assoc, bind_run, (deref_frame_run _ _ _ Hd).
  rewrite bind_assoc, bind_run. unfold lift.
  rewrite (sample_size_in_range _ _ Hlo Hhi).
  destruct (choice_run (nrows d)
              (sample_count (default (8 # 10)%Q frac) (nrows d)) w)
    as (perm & k & Hrun & Hperm).
  exists perm. split; [done|]. split; [by rewrite Hperm, length_seq|].
  rewrite bind_assoc, bind_run, Hrun.
  rewrite estimate_of_new_frame. cbn [default].
  by destruct (iv_estimate _ _).
Qed.

Lemma choice_shuffled n size w :
  choice (A:=A) n size w =
    (Ok (sampled_rows (np_random w) n size),
     {| heap := heap w; np_random := advance (np_random w) (n - 1) |}).
Proof.
  unfold choice, permutation, shuffle.
  by rewrite bind_run, length_seq, shuffle_from_shuffled.
Qed.

(** The subset is the frame at the rows the generator picks. *)
Lemma refute_estimate_subset_rows w df ce d frac :
  heap w !! df = Some (ODataFrame d) ->
  (0 <= default (8 # 10) frac)%Q ->
  (default (8 # 10) frac <= 1)%Q ->
  (refute_estimate_subset df ce frac w).1 =
    iv_estimate
      (take_rows d
         (sampled_rows (np_random w) (nrows d)
            (sample_count (default (8 # 10)%Q frac) (nrows d))))
      "v".
Proof.
  intros Hd Hlo Hhi. unfold refute_estimate_subset, frame_sample.
  rewrite !bind_assoc, bind_run, (deref_frame_run _ _ _ Hd).
  rewrite bind_assoc, bind_run. unfold lift.
  rewrite (sample_size_in_range _ _ Hlo Hhi).
  rewrite bind_assoc, bind_run, choice_shuffled.
  rewrite estimate_of_new_frame. cbn [default np_random].
  by destruct (iv_estimate _ _).
Qed.

Lemma take_idx_zip {X Y} (a : list X) (b : list Y) idx :
  length a = length b ->
  take_idx (zip a b) idx = zip (take_idx a idx) (take_idx b idx).
Proof.
  intros Hlen. unfold take_idx.
  induction idx as [|i idx IH]; [done|]. simpl.
  rewrite lookup_zip_with.
  destruct (a !! i) as [x|] eqn:Ha; simpl.
  - destruct (lookup_lt_is_Some_2 b i) as [y Hb].
    { rewrite <- Hlen. by eapply lookup_lt_Some. }
    rewrite Hb. simpl. f_equal. exact IH.
  - rewrite (lookup_ge_None_2 b i); [done|].
    rewrite <- Hlen. by apply lookup_ge_None.
Qed.

Lemma group_zip (s z : list A) c :
  group s z c =
  (filter (fun p => feqb p.2 (of_int c) = true) (zip s z)).*1.
Proof.
  unfold group, series_mask, series_eq.
  revert z. induction s as [|x s IH]; intros [|y z]; try done.
  simpl. rewrite !filter_cons. simpl.
  case_decide; simpl; by rewrite IH.
Qed.

(** Taking the same rearrangement of the rows of two columns rearranges
    each group. *)
Lemma group_take_idx (s z : list A) c idx :
  length s = length z ->
  idx ≡ₚ seq 0 (length z) ->
  group (take_idx s idx) (take_idx z idx) c ≡ₚ group s z c.
Proof.
  intros Hlen Hperm. rewrite !group_zip, <- take_idx_zip by done.
  rewrite take_idx_Permutation; [done|].
  by rewrite length_zip_with, Hlen, Nat.min_id.
Qed.

End Generic.

(** * The order of the rows *)

Section RowOrder.
Context {A : Type} `{Scalar A}.
Hypothesis Hoi : order_insensitive A.
Implicit Types (a b : list A) (d : DataFrame A).

Lemma fold_add_Permutation a b (acc : A) :
  a ≡ₚ b -> fold_left fadd a acc = fold_left fadd b acc.
Proof.
  intros Hperm. revert acc.
  induction Hperm as [|x a b _ IH|x y a|a b c _ IH1 _ IH2]; intros acc;
    cbn [fold_left].
  - done.
  - apply IH.
  - by rewrite (proj1 Hoi).
  - by rewrite IH1.
Qed.

Lemma np_sum_Permutation a b : a ≡ₚ b -> np_sum a = np_sum b.
Proof. apply fold_add_Permutation. Qed.

Lemma np_mean_Permutation a b : a ≡ₚ b -> np_mean a = np_mean b.
Proof.
  intros Hperm. unfold np_mean.
  by rewrite (np_sum_Permutation _ _ Hperm), Hperm.
Qed.

Lemma np_dot_take_idx a b idx :
  length a = length b ->
  idx ≡ₚ seq 0 (length b) ->
  np_dot (take_idx a idx) (take_idx b idx) = np_dot a b.
Proof.
  intros Hlen Hperm. unfold np_dot.
  rewrite !(zip_with_zip fmul), <- take_idx_zip by done.
  apply np_sum_Permutation. rewrite take_idx_Permutation; [done|].
  by rewrite length_zip_with, Hlen, Nat.min_id.
Qed.

(** [==] is equality, so [dedupe] keeps one copy of each value. *)
Lemma existsb_feqb (x : A) a : existsb (feqb x) a = true <-> x ∈ a.
Proof.
  rewrite existsb_exists. split.
  - intros (y & Hy & Heq). apply (proj2 Hoi) in Heq as ->.
    by apply list_elem_of_In.
  - intros Hx. exists x. split; [by apply list_elem_of_In|].
    by apply (proj2 Hoi).
Qed.

Lemma elem_of_dedupe (x : A) a : x ∈ dedupe a <-> x ∈ a.
Proof.
  induction a as [|y a IH]; [done|]. cbn [dedupe].
  destruct (existsb (feqb y) a) eqn:Hy.
  - apply existsb_feqb in Hy. rewrite IH, elem_of_cons.
    split; [by right|]. by intros [->|Hx].
  - by rewrite !elem_of_cons, IH.
Qed.

Lemma NoDup_dedupe a : NoDup (dedupe a).
Proof.
  induction a as [|y a IH]; cbn [dedupe]; [constructor|].
  destruct (existsb (feqb y) a) eqn:Hy; [done|].
  constructor; [|done]. rewrite elem_of_dedupe, <- existsb_feqb.
  by rewrite Hy.
Qed.

Lemma length_np_unique a : length (np_unique a) = length (dedupe a).
Proof.
  unfold np_unique. induction (dedupe a) as [|x l IH]; [done|]. simpl.
  rewrite <- IH. generalize (foldr sorted_insert [] l). intros k.
  induction k as [|y k IHk]; [done|]. simpl.
  destruct (fltb y x); simpl; [by rewrite IHk|done].
Qed.

Lemma num_distinct_Permutation a b :
  a ≡ₚ b -> num_distinct a = num_distinct b.
Proof.
  intros Hperm. unfold num_distinct. rewrite !length_np_unique.
  apply Permutation_length, NoDup_Permutation; try apply NoDup_dedupe.
  intros x. by rewrite !elem_of_dedupe, Hperm.
Qed.

Lemma wald_take_idx (y x z : list A) idx :
  length y = length z -> length x = length z ->
  idx ≡ₚ seq 0 (length z) ->
  wald (take_idx y idx) (take_idx x idx) (take_idx z idx) = wald y x z.
Proof.
  intros Hy Hx Hperm. unfold wald, wald_denominator.
  by rewrite !(np_mean_Permutation _ _ (group_take_idx y z _ idx Hy Hperm)),
    !(np_mean_Permutation _ _ (group_take_idx x z _ idx Hx Hperm)).
Qed.

Lemma pearl_ratio_take_idx (y x z : list A) idx :
  length y = length z -> length x = length z ->
  idx ≡ₚ seq 0 (length z) ->
  pearl_ratio (take_idx y idx) (take_idx x idx) (take_idx z idx) =
  pearl_ratio y x z.
Proof.
  intros Hy Hx Hperm. unfold pearl_ratio.
  by rewrite !np_dot_take_idx.
Qed.

Lemma getitem_take_rows d idx name :
  getitem (take_rows d idx) name =
  match getitem d name with
  | Ok col => Ok (take_idx col idx)
  | Raise e => Raise e
  end.
Proof.
  unfold getitem, take_rows. cbn [columns]. rewrite lookup_fmap.
  by destruct (columns d !! name).
Qed.

(** The estimate does not depend on the order of the rows. *)
Lemma iv_estimate_take_rows d idx t :
  wf_frame d ->
  idx ≡ₚ seq 0 (nrows d) ->
  iv_estimate (take_rows d idx) t = iv_estimate d t.
Proof.
  intros Hwf Hperm.
  destruct (columns d !! "Z0") as [z|] eqn:Hz; cycle 1.
  { unfold iv_estimate. rewrite !getitem_take_rows.
    unfold getitem. by rewrite Hz. }
  pose proof (Hwf _ _ Hz) as Hlz. rewrite <- Hlz in Hperm.
  assert (Hnum : num_distinct (take_idx z idx) = num_distinct z)
    by by apply num_distinct_Permutation, take_idx_Permutation.
  destruct (columns d !! "y") as [y|] eqn:Hy; cycle 1.
  { unfold iv_estimate. rewrite !getitem_take_rows.
    unfold getitem. rewrite Hz, Hy. cbn [mbind result_bind].
    by do 2 destruct (_ <=? _). }
  destruct (columns d !! t) as [x|] eqn:Hx; cycle 1.
  { unfold iv_estimate. rewrite !getitem_take_rows.
    unfold getitem. rewrite Hz, Hy, Hx. cbn [mbind result_bind].
    by do 2 destruct (_ <=? _). }
  pose proof (Hwf _ _ Hy) as Hly. pose proof (Hwf _ _ Hx) as Hlx.
  rewrite (iv_estimate_columns d t z y x) by done.
  rewrite (iv_estimate_columns _ t (take_idx z idx) (take_idx y idx)
             (take_idx x idx))
    by (cbn [take_rows columns]; by rewrite lookup_fmap, ?Hz, ?Hy, ?Hx).
  rewrite Hnum, wald_take_idx, pearl_ratio_take_idx by congruence.
  done.
Qed.

End RowOrder.

Section Subset.
Context {A : Type} `{Scalar A}.
Implicit Types (w : World A) (d : DataFrame A) (df : loc).

(** C8: subset refutation re-runs the estimator on a sample of the rows
    drawn without replacement: the rows at the first positions of the
    shuffle the generator yields, distinct rows of the frame, as many as
    the fraction (0.8 when omitted) times the row count, the product
    being taken and rounded as binary64 does.  With fraction 1 the sample
    is a rearrangement of all rows; in arithmetic where sums do not
    depend on the order of their terms (exact arithmetic) the result is
    then the estimate of the original frame. *)
Theorem subset_refutation w df ce d frac :
  heap w !! df = Some (ODataFrame d) ->
  wf_frame d ->
  (Z.of_nat (nrows d) < 2 ^ 53)%Z ->
  (0 <= default (8 # 10) frac)%Q ->
  (default (8 # 10) frac <= 1)%Q ->
  exists idx,
    idx = sampled_rows (np_random w) (nrows d)
            (sample_count (default (8 # 10)%Q frac) (nrows d)) /\
    NoDup idx /\
    Forall (fun i => i < nrows d) idx /\
    length idx = sample_count (default (8 # 10)%Q frac) (nrows d) /\
    (refute_estimate_subset df ce frac w).1 =
      iv_estimate (take_rows d idx) "v" /\
    ((default (8 # 10) frac == 1)%Q ->
       idx ≡ₚ seq 0 (nrows d) /\
       (order_insensitive A ->
          (refute_estimate_subset df ce frac w).1 =
            (estimate_value df None w).1)).
Proof.
  intros Hd Hwf Hrows Hlo Hhi.
  pose proof (refute_estimate_subset_rows w df ce d frac Hd Hlo Hhi) as Hrun.
  pose proof (sample_count_le _ _ Hlo Hhi Hrows) as Hsize.
  unfold sampled_rows in *.
  set (size := sample_count _ _) in *.
  set (perm := shuffled _ _ _) in *.
  assert (Hperm : perm ≡ₚ seq 0 (nrows d)) by apply shuffled_Permutation.
  assert (Hlen : length perm = nrows d) by by rewrite Hperm, length_seq.
  exists (take size perm). split; [done|]. split; [|split; [|split; [|split]]].
  - eapply sublist_NoDup; [|apply sublist_take].
    rewrite Hperm. apply NoDup_seq.
  - apply Forall_take. rewrite Hperm. apply Forall_seq. lia.
  - rewrite length_take. lia.
  - done.
  - intros Hone.
    assert (Hall : take size perm = perm).
    { apply firstn_all2. unfold size, sample_count.
      rewrite (binary64_comp _ _ Hone). fold (sample_count 1 (nrows d)).
      rewrite sample_count_all by done. lia. }
    rewrite Hall. split; [done|]. intros Hoi.
    rewrite Hrun, Hall, (estimate_value_run _ _ _ _ Hd).
    by apply iv_estimate_take_rows.
Qed.

End Subset.

(** * Exact arithmetic *)

Section Exact.
Implicit Types (a b : list exact) (d : DataFrame exact).

Lemma exact_order_insensitive : order_insensitive exact.
Proof.
  split.
  - intros x y z. destruct x, y, z; simpl; try done. f_equal. ring.
  - intros x y. apply bool_decide_eq_true.
Qed.

(** ** The Wald estimator on noise-free linear data *)

Lemma fold_add_NonFinite a : fold_left fadd a NonFinite = NonFinite.
Proof. induction a as [|x a IH]; [done|]. exact IH. Qed.







End Exact.

(** * IEEE-754 binary64 *)

Section Float64.

(** Dividing by a zero gives a NaN or an infinity, whatever the
    dividend. *)
Lemma float_div_by_zero (x y : float) :
  PrimFloat.eqb y 0 = true ->
  is_nan (x / y) || is_infinity (x / y) = true.
Proof.
  intros Hy. rewrite FloatAxioms.eqb_spec in Hy.
  change (Prim2SF 0) with (S754_zero false) in Hy.
  unfold is_nan, is_infinity.
  rewrite !FloatAxioms.eqb_spec, abs_spec, div_spec.
  change (Prim2SF infinity) with (S754_infinity false).
  destruct (Prim2SF y) as [s|s| |s m e]; try discriminate.
  - destruct s, (Prim2SF x) as [[]|[]| |[] m' e']; reflexivity.
  - destruct s; discriminate.
  - destruct s; discriminate.
Qed.

(** C3: when the denominator of the branch the estimator takes is zero
    (the Wald difference of mean treatments for a binary instrument, the
    dot product of treatment and instrument otherwise), the estimator
    raises nothing: it returns a record whose value is a NaN or an
    infinity. *)
Theorem degenerate_instrument_is_not_an_error (w : World float) df d t z y x :
  heap w !! df = Some (ODataFrame d) ->
  columns d !! "Z0" = Some z ->
  columns d !! "y" = Some y ->
  columns d !! default "v" t = Some x ->
  PrimFloat.eqb (if decide (num_distinct z ≤ 2)
                 then wald_denominator x z
                 else np_dot x z) 0 = true ->
  exists est,
    instrumental_variables_estimator df t w =
      (Ok (length (heap w)),
       {| heap := heap w ++ [OEstimate {| value := est |}];
          np_random := np_random w |}) /\
    is_nan est || is_infinity est = true.
Proof.
  intros Hd Hz Hy Hx Hzero.
  rewrite (estimator_run _ _ _ _ Hd).
  rewrite (iv_estimate_columns _ _ _ _ _ Hz Hy Hx).
  eexists. split; [done|].
  case_decide; by apply float_div_by_zero.
Qed.

End Float64.

(** * Beyond the claims: errors, edge cases and composition *)

Section Behaviour.
Context {A : Type} `{Scalar A}.
Implicit Types (w : World A) (d : DataFrame A) (df l : loc).

(** ** Missing columns *)

Lemma iv_estimate_missing d t name :
  head (missing_columns d ["Z0"; "y"; t]) = Some name ->
  iv_estimate d t = Raise (KeyError name).
Proof.
  intros Hmissing.
  unfold missing_columns in Hmissing. unfold iv_estimate, getitem.
  rewrite !filter_cons, filter_nil in Hmissing.
  destruct (columns d !! "Z0") as [z|] eqn:Hz; cycle 1.
  { rewrite decide_True in Hmissing by (by intros [? ?]).
    by injection Hmissing as <-. }
  rewrite decide_False in Hmissing by (intros Hn; apply Hn; by eexists).
  cbn [mbind result_bind].
  destruct (columns d !! "y") as [y|] eqn:Hy; cycle 1.
  { rewrite decide_True in Hmissing by (by intros [? ?]).
    injection Hmissing as <-. by destruct (_ <=? _). }
  rewrite decide_False in Hmissing by (intros Hn; apply Hn; by eexists).
  cbn [mbind result_bind].
  destruct (columns d !! t) as [x|] eqn:Hx; cycle 1.
  { rewrite decide_True in Hmissing by (by intros [? ?]).
    injection Hmissing as <-. by destruct (_ <=? _). }
  rewrite decide_False in Hmissing by (intros Hn; apply Hn; by eexists).
  done.
Qed.

(** X1: the estimator looks up "Z0", then "y", then the treatment column;
    the first of them that the frame lacks is the key of the [KeyError]
    it raises, and then no record is created and nothing else changes. *)
Theorem estimator_missing_column w df d t name :
  heap w !! df = Some (ODataFrame d) ->
  head (missing_columns d ["Z0"; "y"; default "v" t]) = Some name ->
  instrumental_variables_estimator df t w = (Raise (KeyError name), w).
Proof.
  intros Hd Hmissing. rewrite (estimator_run _ _ _ _ Hd).
  by rewrite (iv_estimate_missing _ _ _ Hmissing).
Qed.

(** X2: "permute" mode reads the column "v" whatever the treatment is
    called: on a frame without "v" the first simulation raises
    [KeyError] "v" before anything is drawn or created. *)
Theorem permute_placebo_needs_v w df ce d sims :
  heap w !! df = Some (ODataFrame d) ->
  columns d !! "v" = None ->
  (0 < default 100 sims)%Z ->
  refute_estimate_placebo df ce (Some "permute") sims w =
  (Raise (KeyError "v"), w).
Proof.
  intros Hd Hv Hsims. unfold refute_estimate_placebo.
  rewrite (shape0_run _ _ _ _ Hd). cbn [default].
  destruct (Z.to_nat (default 100%Z sims)) as [|n] eqn:Hn; [lia|].
  rewrite bind_run. cbn [placebo_loop]. rewrite bind_run.
  unfold placebo_step. rewrite decide_True by done.
  rewrite !bind_assoc, bind_run, (deref_frame_run _ _ _ Hd).
  rewrite bind_assoc, bind_run. unfold lift, getitem. by rewrite Hv.
Qed.

(** ** No simulation at all *)

(** X3: with [sims] zero or negative the loop body never runs: nothing is
    drawn or created, and the final division is [0 / sims], which raises
    [ZeroDivisionError] for [sims = 0] and is a number otherwise. *)
Theorem placebo_without_simulations w df ce d placebo_type sims :
  heap w !! df = Some (ODataFrame d) ->
  (default 100 sims <= 0)%Z ->
  refute_estimate_placebo df ce placebo_type sims w =
  (if decide (default 100%Z sims = 0%Z)
   then Raise ZeroDivisionError
   else Ok (fdiv (of_int 0) (of_int (default 100%Z sims))),
   w).
Proof.
  intros Hd Hsims. unfold refute_estimate_placebo.
  rewrite (shape0_run _ _ _ _ Hd).
  replace (Z.to_nat (default 100%Z sims)) with 0 by lia.
  rewrite bind_run. cbn [placebo_loop]. unfold mret at 1, M_ret.
  by case_decide.
Qed.

(** ** What one random-common-cause refutation does to the world *)

Lemma random_refuter_steps w df ce d :
  heap w !! df = Some (ODataFrame d) ->
  refute_estimate_random df ce w =
  let new_data :=
    ODataFrame (with_column d "w_random"
                  (noise_column (np_random w) (nrows d) 0)) in
  let rs := advance (np_random w) (nrows d) in
  match iv_estimate d "v" with
  | Ok est =>
      (Ok est,
       {| heap := heap w ++ [new_data; OEstimate {| value := est |}];
          np_random := rs |})
  | Raise e => (Raise e, {| heap := heap w ++ [new_data]; np_random := rs |})
  end.
Proof.
  intros Hd. unfold refute_estimate_random.
  rewrite (shape0_run _ _ _ _ Hd), randn_run.
  rewrite bind_run, (assign_run _ df d)
    by (by rewrite ?length_fmap, ?length_seq).
  rewrite <- bind_run, estimate_of_new_frame. cbn [default heap np_random].
  rewrite iv_estimate_with_column by done.
  unfold noise_column. rewrite Nat.add_0_r.
  by destruct (iv_estimate d "v").
Qed.

(** X4: a random-common-cause refutation raises only what the estimator
    raises on the original frame (the length check of [assign] never
    fails); it draws exactly [nrows] deviates and creates the augmented
    frame and, when it returns, one estimate record: two objects, or one
    when it raises. *)
Theorem random_refuter_footprint w df ce d :
  heap w !! df = Some (ODataFrame d) ->
  let out := refute_estimate_random df ce w in
  out.1 = iv_estimate d "v" /\
  np_random out.2 = advance (np_random w) (nrows d) /\
  length (heap out.2) =
    length (heap w) + (if out.1 is Ok _ then 2 else 1).
Proof.
  intros Hd. cbn zeta. rewrite (random_refuter_steps _ _ _ _ Hd). cbn zeta.
  destruct (iv_estimate d "v"); cbn [fst snd heap np_random];
    by rewrite length_app.
Qed.

(** X5: a random-common-cause refutation that follows another one
    (whatever that one returned or raised, and whatever baseline either
    was given) returns what the first returned: the value does not
    depend on the noise drawn. *)
Theorem refute_random_again w df ce ce' d :
  heap w !! df = Some (ODataFrame d) ->
  (refute_estimate_random df ce' (refute_estimate_random df ce w).2).1 =
  (refute_estimate_random df ce w).1.
Proof.
  intros Hd.
  assert (Hd' : heap (refute_estimate_random df ce w).2 !! df =
                Some (ODataFrame d)).
  { eapply prefix_lookup_Some; [exact Hd|apply preserves_random]. }
  rewrite (random_refuter_steps _ _ ce' _ Hd').
  rewrite (random_refuter_steps _ _ ce _ Hd). cbn zeta.
  by destruct (iv_estimate d "v").
Qed.

(** X13: the random-common-cause and subset refuters re-run the
    estimator with its default treatment name: on a frame that has "Z0"
    and "y" but whose treatment column is not called "v" both raise
    [KeyError] "v", whatever treatment the baseline was computed
    with. *)
Theorem refuters_need_v w df ce d frac :
  heap w !! df = Some (ODataFrame d) ->
  is_Some (columns d !! "Z0") ->
  is_Some (columns d !! "y") ->
  columns d !! "v" = None ->
  (0 <= default (8 # 10) frac)%Q ->
  (default (8 # 10) frac <= 1)%Q ->
  (refute_estimate_random df ce w).1 = Raise (KeyError "v") /\
  (refute_estimate_subset df ce frac w).1 = Raise (KeyError "v").
Proof.
  intros Hd Hz Hy Hv Hlo Hhi.
  assert (Hmissing : forall d', is_Some (columns d' !! "Z0") ->
            is_Some (columns d' !! "y") -> columns d' !! "v" = None ->
            iv_estimate d' "v" = Raise (KeyError "v")).
  { intros d' Hz' Hy' Hv'. apply iv_estimate_missing.
    unfold missing_columns. rewrite !filter_cons, filter_nil.
    rewrite !decide_False by (intros Hn; by apply Hn).
    by rewrite decide_True by (rewrite Hv'; by intros [? ?]). }
  split.
  - rewrite (random_refuter_steps _ _ _ _ Hd). cbn zeta.
    by rewrite Hmissing.
  - destruct (refute_estimate_subset_run w df ce d frac Hd Hlo Hhi)
      as (perm & _ & _ & ->).
    apply Hmissing; cbn [columns take_rows]; rewrite lookup_fmap.
    + by apply fmap_is_Some.
    + by apply fmap_is_Some.
    + by rewrite Hv.
Qed.

(** ** Placebo refutation with noise *)

Lemma placebo_result w df ce d placebo_type sims :
  heap w !! df = Some (ODataFrame d) ->
  (refute_estimate_placebo df ce placebo_type sims w).1 =
  (refute ← (placebo_loop df (default "permte" placebo_type) (nrows d)
               (Z.to_nat (default 100%Z sims)) (of_int 0) w).1;
   if decide (default 100%Z sims = 0%Z) then Raise ZeroDivisionError
   else Ok (fdiv refute (of_int (default 100%Z sims)))).
Proof.
  intros Hd. unfold refute_estimate_placebo.
  rewrite (shape0_run _ _ _ _ Hd), bind_run.
  destruct (placebo_loop _ _ _ _ _ w) as [[refute|e] w']; [|done].
  cbn [fst mbind result_bind]. by case_decide.
Qed.

Lemma noise_column_0 (rs : RandomState A) n :
  noise_column rs n 0 = gauss_tape rs <$> seq (pos rs) n.
Proof. unfold noise_column. by rewrite Nat.add_0_r. Qed.

Lemma gaussian_placebo_loop_run df d n (refute : A) w :
  heap w !! df = Some (ODataFrame d) ->
  (gaussian_placebo_loop df (nrows d) n refute w).1 =
  (ests ← mapM (placebo_estimate d)
            (noise_column (np_random w) (nrows d) <$> seq 0 n);
   mret (fold_left fadd ests refute)).
Proof.
  revert refute w. induction n as [|n IH]; intros refute w Hd; [done|].
  cbn [gaussian_placebo_loop]. rewrite randn_run.
  rewrite bind_run, (assign_run _ df d)
    by (by rewrite ?length_fmap, ?length_seq).
  rewrite <- bind_run, estimate_of_new_frame.
  change (default "v" (Some "placebo")) with "placebo".
  rewrite <- !noise_column_0.
  cbn [seq fmap list_fmap heap np_random]. rewrite mapM_cons_result.
  fold (placebo_estimate d (noise_column (np_random w) (nrows d) 0)).
  destruct (placebo_estimate d (noise_column (np_random w) (nrows d) 0))
    as [est|e]; [|done].
  rewrite IH by (by apply lookup_app_l_Some). cbn [mbind result_bind np_random].
  rewrite <- fmap_S_seq, <- list_fmap_compose.
  f_equal. f_equal. apply list_fmap_ext. intros i k _. cbn.
  apply noise_column_advance.
Qed.

Lemma mapM_result_ext {X Y} (f g : X -> result Y) xs :
  (forall x, f x = g x) -> mapM f xs = mapM g xs.
Proof.
  intros Hfg. induction xs as [|x xs IH]; [done|].
  cbn [mapM]. by rewrite Hfg, IH.
Qed.

(** X6: in every mode but "permute" the placebo refutation reads the
    frame's row count and its columns "Z0" and "y" and nothing else, the
    treatment column included: two frames that agree on these give the
    same result from the same generator state. *)
Theorem noise_placebo_ignores_treatment
    w1 w2 df1 df2 ce1 ce2 d1 d2 placebo_type sims :
  default "permte" placebo_type <> "permute" ->
  heap w1 !! df1 = Some (ODataFrame d1) ->
  heap w2 !! df2 = Some (ODataFrame d2) ->
  np_random w1 = np_random w2 ->
  nrows d1 = nrows d2 ->
  columns d1 !! "Z0" = columns d2 !! "Z0" ->
  columns d1 !! "y" = columns d2 !! "y" ->
  (refute_estimate_placebo df1 ce1 placebo_type sims w1).1 =
  (refute_estimate_placebo df2 ce2 placebo_type sims w2).1.
Proof.
  intros Hmode Hd1 Hd2 Hrs Hrows Hz Hy.
  rewrite (placebo_result _ _ _ _ _ _ Hd1), (placebo_result _ _ _ _ _ _ Hd2).
  rewrite !placebo_loop_gaussian by done.
  rewrite (gaussian_placebo_loop_run _ _ _ _ _ Hd1),
    (gaussian_placebo_loop_run _ _ _ _ _ Hd2).
  rewrite Hrs, Hrows.
  rewrite (mapM_result_ext (placebo_estimate d1) (placebo_estimate d2)); [done|].
  intros col. unfold placebo_estimate. apply iv_estimate_ext; cbn [columns with_column].
  - by rewrite !lookup_insert_ne.
  - by rewrite !lookup_insert_ne.
  - by rewrite !lookup_insert_eq.
Qed.

(** ** Calls that cannot fail *)

Lemma iv_estimate_ok d t :
  is_Some (columns d !! "Z0") ->
  is_Some (columns d !! "y") ->
  is_Some (columns d !! t) ->
  exists est, iv_estimate d t = Ok est.
Proof.
  intros [z Hz] [y Hy] [x Hx].
  rewrite (iv_estimate_columns _ _ _ _ _ Hz Hy Hx). by eexists.
Qed.

Lemma mapM_result_ok {X Y} (f : X -> result Y) xs :
  (forall x, exists y, f x = Ok y) -> exists ys, mapM f xs = Ok ys.
Proof.
  intros Hf. induction xs as [|x xs [ys IH]]; [by eexists|].
  destruct (Hf x) as [y Hy]. exists (y :: ys).
  cbn [mapM]. by rewrite Hy, IH.
Qed.

(** X7: on a well-formed frame with the columns "Z0", "y" and "v" the
    placebo refutation returns a number in every mode and for every
    number of simulations but zero. *)
Theorem placebo_returns w df ce d placebo_type sims :
  heap w !! df = Some (ODataFrame d) ->
  wf_frame d ->
  is_Some (columns d !! "Z0") ->
  is_Some (columns d !! "y") ->
  is_Some (columns d !! "v") ->
  default 100%Z sims <> 0%Z ->
  exists r, (refute_estimate_placebo df ce placebo_type sims w).1 = Ok r.
Proof.
  intros Hd Hwf Hz Hy [v Hv] Hsims.
  rewrite (placebo_result _ _ _ _ _ _ Hd).
  destruct (placebo_loop_run df d v (default "permte" placebo_type)
              (Z.to_nat (default 100%Z sims)) (of_int 0) w Hd Hwf Hv)
    as (cols & _ & _ & ->).
  destruct (mapM_result_ok (placebo_estimate d) cols) as [ests ->].
  { intros col. by apply placebo_estimate_ok. }
  cbn [mbind result_bind mret result_ret].
  rewrite decide_False by done. by eexists.
Qed.

(** X8: on a frame with the columns "Z0", "y" and "v" the subset
    refutation returns a number for every fraction between 0 and 1, the
    default included: the sample has all the columns of the frame. *)
Theorem subset_returns w df ce d frac :
  heap w !! df = Some (ODataFrame d) ->
  is_Some (columns d !! "Z0") ->
  is_Some (columns d !! "y") ->
  is_Some (columns d !! "v") ->
  (0 <= default (8 # 10) frac)%Q ->
  (default (8 # 10) frac <= 1)%Q ->
  exists r, (refute_estimate_subset df ce frac w).1 = Ok r.
Proof.
  intros Hd Hz Hy Hv Hlo Hhi.
  destruct (refute_estimate_subset_run w df ce d frac Hd Hlo Hhi)
    as (perm & _ & _ & ->).
  apply iv_estimate_ok; cbn [columns take_rows]; rewrite lookup_fmap;
    by apply fmap_is_Some.
Qed.

(** ** The notebook from top to bottom *)

Lemma get_value_run {X} w l (est : A) (k : A -> M A X) :
  heap w !! l = Some (OEstimate {| value := est |}) ->
  (x ← get_value l; k x) w = k est w.
Proof. intros Hl. rewrite bind_run. unfold get_value. by rewrite Hl. Qed.

(** X9: on a frame with the columns "Z0", "y" and "v" the cells of the
    notebook run to the end without an exception; every "Causal estimate
    was" line shows the estimator's value on the frame, the
    random-common-cause refutation returns that same value, and the frame
    is what it was before the first cell. *)
Theorem notebook_runs w df d :
  heap w !! df = Some (ODataFrame d) ->
  is_Some (columns d !! "Z0") ->
  is_Some (columns d !! "y") ->
  is_Some (columns d !! "v") ->
  exists base res_placebo res_subset,
    iv_estimate d "v" = Ok base /\
    (notebook df w).1 =
      Ok [base; base; base; base; res_placebo; base; res_subset] /\
    heap (notebook df w).2 !! df = Some (ODataFrame d).
Proof.
  intros Hd Hz Hy Hv.
  destruct (iv_estimate_ok d "v" Hz Hy Hv) as [base Hbase].
  exists base.
  enough (exists res_placebo res_subset w',
            notebook df w =
              (Ok [base; base; base; base; res_placebo; base; res_subset],
               w') /\
            heap w' !! df = Some (ODataFrame d))
    as (res_placebo & res_subset & w' & -> & Hd');
    [by exists res_placebo, res_subset|].
  unfold notebook.
  (* the estimate *)
  rewrite bind_run, (estimator_run _ _ _ _ Hd). cbn [default].
  rewrite Hbase. unfold alloc at 1.
  set (ce := length (heap w)).
  set (w1 := {| heap := heap w ++ [OEstimate {| value := base |}];
                np_random := np_random w |}).
  assert (Hd1 : heap w1 !! df = Some (ODataFrame d))
    by by apply lookup_app_l_Some.
  assert (Hce1 : heap w1 !! ce = Some (OEstimate {| value := base |}))
    by by apply list_lookup_middle.
  rewrite (get_value_run _ _ _ _ Hce1).
  (* random common cause *)
  rewrite bind_run, (random_refuter_steps _ _ _ _ Hd1). cbn zeta.
  rewrite Hbase.
  set (w2 := {| heap := heap w1 ++ _; np_random := _ |}).
  assert (Hd2 : heap w2 !! df = Some (ODataFrame d))
    by by apply lookup_app_l_Some.
  assert (Hce2 : heap w2 !! ce = Some (OEstimate {| value := base |}))
    by by apply lookup_app_l_Some.
  rewrite (get_value_run _ _ _ _ Hce2).
  (* placebo, default mode and default number of simulations *)
  rewrite bind_run.
  pose proof (placebo_result w2 df ce d None None Hd2) as Hplacebo.
  rewrite placebo_loop_gaussian in Hplacebo by done.
  destruct (gaussian_placebo_loop_ok df d (Z.to_nat (default 100%Z None))
              (of_int 0) w2 Hd2 Hz Hy) as (refute & w' & Hloop).
  rewrite Hloop in Hplacebo. cbn [fst mbind result_bind] in Hplacebo.
  rewrite decide_False in Hplacebo by done.
  pose proof (preserves_placebo df ce None None w2) as Hprefix3.
  destruct (refute_estimate_placebo df ce None None w2)
    as [res3 w3] eqn:Hrun3.
  cbn [fst snd] in Hplacebo, Hprefix3. subst res3.
  exists (fdiv refute (of_int (default 100%Z None))).
  assert (Hd3 : heap w3 !! df = Some (ODataFrame d))
    by by eapply prefix_lookup_Some.
  assert (Hce3 : heap w3 !! ce = Some (OEstimate {| value := base |}))
    by by eapply prefix_lookup_Some.
  rewrite (get_value_run _ _ _ _ Hce3).
  (* subset, default fraction *)
  rewrite bind_run.
  destruct (refute_estimate_subset_run w3 df ce d None Hd3)
    as (perm & _ & _ & Hsubset); [done|done|].
  destruct (iv_estimate_ok (take_rows d
              (take (sample_count (default (8 # 10)%Q None) (nrows d))
                 perm)) "v") as [res_subset Hres];
    [cbn [columns take_rows]; rewrite lookup_fmap; by apply fmap_is_Some..|].
  cbn zeta in Hsubset. rewrite Hres in Hsubset.
  pose proof (preserves_subset df ce None w3) as Hprefix4.
  destruct (refute_estimate_subset df ce None w3) as [res4 w4] eqn:Hrun4.
  cbn [fst snd] in Hsubset, Hprefix4. subst res4.
  exists res_subset.
  assert (Hd4 : heap w4 !! df = Some (ODataFrame d))
    by by eapply prefix_lookup_Some.
  assert (Hce4 : heap w4 !! ce = Some (OEstimate {| value := base |}))
    by by eapply prefix_lookup_Some.
  rewrite (get_value_run _ _ _ _ Hce4).
  by exists w4.
Qed.

End Behaviour.

(** ** An instrument that never takes one of the values 0 and 1 *)

Section Float64Behaviour.

Lemma group_empty {A} `{Scalar A} (s z : list A) c :
  Forall (fun zi => feqb zi (of_int c) = false) z -> group s z c = [].
Proof.
  intros Hz. rewrite group_zip. revert s.
  induction Hz as [|zi z Hzi _ IH]; intros [|si s]; try done.
  cbn [zip zip_with]. rewrite filter_cons. cbn [snd].
  rewrite decide_False by (by rewrite Hzi). apply IH.
Qed.

Lemma is_nan_of_spec (x : float) : Prim2SF x = S754_nan -> is_nan x = true.
Proof.
  intros Hx. unfold is_nan. by rewrite FloatAxioms.eqb_spec, Hx.
Qed.

Lemma sub_nan_l (x y : float) :
  Prim2SF x = S754_nan -> Prim2SF (x - y) = S754_nan.
Proof. intros Hx. by rewrite sub_spec, Hx. Qed.

Lemma sub_nan_r (x y : float) :
  Prim2SF y = S754_nan -> Prim2SF (x - y) = S754_nan.
Proof. intros Hy. rewrite sub_spec, Hy. by destruct (Prim2SF x). Qed.

Lemma div_nan_r (x y : float) :
  Prim2SF y = S754_nan -> Prim2SF (x / y) = S754_nan.
Proof. intros Hy. rewrite div_spec, Hy. by destruct (Prim2SF x). Qed.

Lemma wald_denominator_nan (x z : list float) c :
  c = 1%Z \/ c = 0%Z ->
  Forall (fun zi => PrimFloat.eqb zi (float_of_int c) = false) z ->
  Prim2SF (wald_denominator x z) = S754_nan.
Proof.
  intros Hc Hz. unfold wald_denominator.
  pose proof (group_empty x z c Hz) as Hgroup.
  destruct Hc as [-> | ->]; rewrite Hgroup.
  - by apply sub_nan_l.
  - by apply sub_nan_r.
Qed.

Lemma estimator_nan (w : World float) df d t z y x :
  heap w !! df = Some (ODataFrame d) ->
  columns d !! "Z0" = Some z ->
  columns d !! "y" = Some y ->
  columns d !! default "v" t = Some x ->
  num_distinct z ≤ 2 ->
  Prim2SF (wald_denominator x z) = S754_nan ->
  exists est,
    instrumental_variables_estimator df t w =
      (Ok (length (heap w)),
       {| heap := heap w ++ [OEstimate {| value := est |}];
          np_random := np_random w |}) /\
    is_nan est = true.
Proof.
  intros Hd Hz Hy Hx Hbin Hnan.
  rewrite (estimator_run _ _ _ _ Hd).
  rewrite (iv_estimate_columns _ _ _ _ _ Hz Hy Hx).
  rewrite decide_True by done.
  eexists. split; [done|].
  by apply is_nan_of_spec, div_nan_r.
Qed.

(** X10: when the instrument has at most two distinct values and none of
    its rows equals 1, or none equals 0 (a constant instrument, or a
    binary one coded otherwise), the mean over the missing group is 0/0
    and the estimator returns a record whose value is NaN; it does not
    raise. *)
Theorem one_sided_instrument_gives_nan (w : World float) df d t z y x c :
  heap w !! df = Some (ODataFrame d) ->
  columns d !! "Z0" = Some z ->
  columns d !! "y" = Some y ->
  columns d !! default "v" t = Some x ->
  num_distinct z ≤ 2 ->
  c = 1%Z \/ c = 0%Z ->
  Forall (fun zi => PrimFloat.eqb zi (float_of_int c) = false) z ->
  exists est,
    instrumental_variables_estimator df t w =
      (Ok (length (heap w)),
       {| heap := heap w ++ [OEstimate {| value := est |}];
          np_random := np_random w |}) /\
    is_nan est = true.
Proof.
  intros Hd Hz Hy Hx Hbin Hc Hnone.
  eapply estimator_nan; try done.
  by eapply wald_denominator_nan.
Qed.

(** X11: on a frame without rows that has the three columns, the
    estimator takes the Wald branch (no distinct value at all) and
    returns a record whose value is NaN. *)
Theorem estimator_on_empty_frame (w : World float) df d t :
  heap w !! df = Some (ODataFrame d) ->
  wf_frame d ->
  nrows d = 0 ->
  is_Some (columns d !! "Z0") ->
  is_Some (columns d !! "y") ->
  is_Some (columns d !! default "v" t) ->
  exists est,
    instrumental_variables_estimator df t w =
      (Ok (length (heap w)),
       {| heap := heap w ++ [OEstimate {| value := est |}];
          np_random := np_random w |}) /\
    is_nan est = true.
Proof.
  intros Hd Hwf Hrows [z Hz] [y Hy] [x Hx].
  assert (z = []) as ->.
  { apply nil_length_inv. rewrite <- Hrows. by eapply Hwf. }
  eapply estimator_nan; try done.
  - cbn. lia.
  - by apply (wald_denominator_nan x [] 1); [left|].
Qed.

End Float64Behaviour.

(** ** The Pearl ratio on noise-free linear data *)

Section ExactBehaviour.

Lemma fold_dot_linear (alpha beta : Qc) (x z : list exact) (a s : Qc) :
  length x = length z ->
  fold_left fadd (zip_with fmul x z) (Finite a) = Finite s ->
  exists t : Qc,
    (forall b, fold_left fadd z (Finite b) = Finite (b + t)%Qc) /\
    (forall c,
       fold_left fadd
         (zip_with fmul (linear_outcome (Finite alpha) (Finite beta) x) z)
         (Finite c) =
       Finite (c + alpha * t + beta * (s - a))%Qc).
Proof.
  revert z a. induction x as [|xi x IH]; intros [|zi z] a Hlen Hsum;
    try done.
  - exists 0%Qc. injection Hsum as ->. split; intros; cbn; f_equal; ring.
  - destruct xi as [p|], zi as [q|];
      try (cbn in Hsum; by rewrite fold_add_NonFinite in Hsum).
    cbn [zip_with fold_left] in Hsum.
    change (fadd (Finite a) (fmul (Finite p) (Finite q)))
      with (Finite (a + p * q)%Qc) in Hsum.
    destruct (IH z _ ltac:(by injection Hlen) Hsum) as (t & Hz & Hlin).
    exists (q + t)%Qc. split.
    + intros b. cbn [fold_left].
      change (fadd (Finite b) (Finite q)) with (Finite (b + q)%Qc).
      rewrite Hz. f_equal. ring.
    + intros c. cbn [linear_outcome fmap list_fmap zip_with fold_left].
      change (fadd (Finite c) _)
        with (Finite (c + (alpha + beta * p) * q)%Qc).
      etrans; [apply Hlin|]. f_equal. ring.
Qed.

(** X12: on a frame whose outcome column is [alpha + beta * treatment]
    with no noise and whose instrument has more than two distinct
    values, the estimator takes the Pearl branch and, in exact
    arithmetic, returns [beta + alpha * sum(Z0) / dot(treatment, Z0)]:
    [beta] itself when the intercept is zero, and off by the intercept
    term otherwise. *)
Theorem pearl_on_linear_data (w : World exact) df d t z x
    (alpha beta sxz : Qc) :
  heap w !! df = Some (ODataFrame d) ->
  columns d !! "Z0" = Some z ->
  columns d !! default "v" t = Some x ->
  columns d !! "y" = Some (linear_outcome (Finite alpha) (Finite beta) x) ->
  length x = length z ->
  2 < num_distinct z ->
  np_dot x z = Finite sxz ->
  sxz <> 0%Qc ->
  exists sz : Qc,
    np_sum z = Finite sz /\
    (estimate_value df t w).1 = Ok (Finite (beta + alpha * sz / sxz)%Qc).
Proof.
  intros Hd Hz Hx Hy Hlen Hcont Hdot Hsxz.
  destruct (fold_dot_linear alpha beta x z (Qc_of_Z 0) sxz Hlen Hdot)
    as (sz & Hsum & Hlin).
  exists sz. split.
  - unfold np_sum. change (of_int 0) with (Finite (Qc_of_Z 0)).
    rewrite Hsum, Z2Qc_inj_0. f_equal. ring.
  - rewrite (estimate_value_run _ _ _ _ Hd).
    rewrite (iv_estimate_columns _ _ _ _ _ Hz Hy Hx).
    rewrite decide_False by lia. unfold pearl_ratio. rewrite Hdot.
    unfold np_dot at 1, np_sum. change (of_int 0) with (Finite (Qc_of_Z 0)).
    rewrite Hlin. cbn [fdiv exact_scalar exact_div].
    rewrite decide_False by done. do 2 f_equal. rewrite Z2Qc_inj_0. by field.
Qed.

(** X14: in exact arithmetic the estimate does not depend on the order
    of the rows: a frame made of the same rows in another order gets the
    same estimate, or the same exception. *)
Theorem estimator_row_order (w1 w2 : World exact) df1 df2 d idx t :
  heap w1 !! df1 = Some (ODataFrame d) ->
  heap w2 !! df2 = Some (ODataFrame (take_rows d idx)) ->
  wf_frame d ->
  idx ≡ₚ seq 0 (nrows d) ->
  (estimate_value df2 t w2).1 = (estimate_value df1 t w1).1.
Proof.
  intros Hd1 Hd2 Hwf Hperm.
  rewrite (estimate_value_run _ _ _ _ Hd1), (estimate_value_run _ _ _ _ Hd2).
  by apply (iv_estimate_take_rows exact_order_insensitive).
Qed.

End ExactBehaviour.

(** * The theorems at work on small frames *)

Section Witnesses.
Import Examples.

Lemma frame_wf {A} (z v y : list A) :
  length v = length z -> length y = length z -> wf_frame (frame z v y).
Proof.
  intros Hv Hy name col. unfold frame. simpl.
  rewrite !lookup_insert, lookup_empty.
  repeat case_decide; by intros [= <-].
Qed.

Lemma binary_frame_wf : wf_frame binary_frame.
Proof. by apply frame_wf. Qed.

Lemma linear_frame_wf : wf_frame linear_frame.
Proof. by apply frame_wf. Qed.

Lemma estimator_dispatch_witness :
  instrumental_variables_estimator 0 None (world binary_frame) =
  (Ok 1,
   {| heap := [ODataFrame binary_frame; OEstimate {| value := 10%float |}];
      np_random := tape |}).
Proof.
  exact (estimator_dispatch (world binary_frame) 0 binary_frame None
           _ _ _ eq_refl eq_refl eq_refl eq_refl).
Defined.



Lemma degenerate_instrument_witness :
  exists est,
    instrumental_variables_estimator 0 None (world flat_frame) =
      (Ok 1,
       {| heap := [ODataFrame flat_frame; OEstimate {| value := est |}];
          np_random := tape |}) /\
    is_nan est || is_infinity est = true.
Proof.
  exact (degenerate_instrument_is_not_an_error (world flat_frame) 0
           flat_frame None _ _ _ eq_refl eq_refl eq_refl eq_refl eq_refl).
Defined.

Lemma placebo_refutation_mean_witness :
  (refute_estimate_placebo 0 0 None (Some 2%Z) (world binary_frame)).1 =
    (ests ← mapM (placebo_estimate binary_frame)
              [[-3; -2; -1; 0; 1]%float; [2; 3; 4; 5; 6]%float];
     mret (np_mean ests)) /\
  Forall (fun col => col ≡ₚ [3; 1; 5; 2; 4]%float)
    [[1; 3; 4; 5; 2]%float; [4; 2; 3; 5; 1]%float] /\
  (refute_estimate_placebo 0 0 (Some "permute") (Some 2%Z)
     (world binary_frame)).1 =
    (ests ← mapM (placebo_estimate binary_frame)
              [[1; 3; 4; 5; 2]%float; [4; 2; 3; 5; 1]%float];
     mret (np_mean ests)).
Proof.
  split.
  - refine (proj1 (placebo_refutation_mean (world binary_frame) 0 0
                     binary_frame None (Some 2%Z) eq_refl eq_refl) _).
    simpl. discriminate.
  - exact (proj2 (placebo_refutation_mean (world binary_frame) 0 0
                    binary_frame (Some "permute") (Some 2%Z) eq_refl eq_refl)
             eq_refl _ eq_refl binary_frame_wf).
Defined.

Lemma placebo_type_fallthrough_witness :
  refute_estimate_placebo 0 0 None (Some 2%Z) (world binary_frame) =
    gaussian_placebo 0 2 (world binary_frame) /\
  exists r,
    (refute_estimate_placebo 0 0 None (Some 2%Z) (world binary_frame)).1 =
    Ok r.
Proof.
  refine (placebo_type_fallthrough (world binary_frame) 0 0 binary_frame
            None (Some 2%Z) _ eq_refl (mk_is_Some _ _ eq_refl)
            (mk_is_Some _ _ eq_refl) _).
  - simpl. discriminate.
  - simpl. lia.
Defined.

Lemma refuters_do_not_mutate_witness :
  let random := refute_estimate_random 0 0 (world binary_frame) in
  let placebo := refute_estimate_placebo 0 0 (Some "permute") (Some 2%Z)
                   (world binary_frame) in
  let subset := refute_estimate_subset 0 0 None (world binary_frame) in
  (heap random.2 !! 0 = Some (ODataFrame binary_frame) /\
   derives_new_frame (world binary_frame) random) /\
  (heap placebo.2 !! 0 = Some (ODataFrame binary_frame) /\
   derives_new_frame (world binary_frame) placebo) /\
  (heap subset.2 !! 0 = Some (ODataFrame binary_frame) /\
   derives_new_frame (world binary_frame) subset).
Proof.
  exact (refuters_do_not_mutate (world binary_frame) 0 0 (Some "permute")
           (Some 2%Z) None 0 (ODataFrame binary_frame) eq_refl eq_refl).
Defined.

Lemma random_common_cause_witness :
  (refute_estimate_random 0 0 (world binary_frame)).1 =
  (estimate_value 0 None (world binary_frame)).1.
Proof.
  exact (proj1 (random_common_cause_equals_baseline (world binary_frame) 0 0
                  binary_frame eq_refl)).
Defined.

Lemma subset_refutation_witness :
  NoDup [0; 2; 1; 3] /\
  Forall (fun i => i < 4) [0; 2; 1; 3] /\
  [0; 2; 1; 3] ≡ₚ seq 0 4 /\
  (refute_estimate_subset 0 0 (Some 1%Q) (exact_world linear_frame)).1 =
    iv_estimate (take_rows linear_frame [0; 2; 1; 3]) "v" /\
  (refute_estimate_subset 0 0 (Some 1%Q) (exact_world linear_frame)).1 =
    (estimate_value 0 None (exact_world linear_frame)).1.
Proof.
  assert (Hfew : (Z.of_nat (nrows linear_frame) < 2 ^ 53)%Z)
    by (simpl; lia).
  assert (Hlo : (0 <= default (8 # 10) (Some 1))%Q) by (simpl; lra).
  assert (Hhi : (default (8 # 10) (Some 1) <= 1)%Q) by (simpl; lra).
  destruct (subset_refutation (exact_world linear_frame) 0 0 linear_frame
              (Some 1%Q) eq_refl linear_frame_wf Hfew Hlo Hhi)
    as (idx & Hidx & Hdistinct & Hrows & Hlen & Hrun & Hall).
  destruct Hall as [Hperm Hbase]; [reflexivity|].
  assert (Hrows_picked : idx = [0; 2; 1; 3])
    by (rewrite Hidx; vm_compute; reflexivity).
  rewrite Hrows_picked in *.
  split; [exact Hdistinct|]. split; [exact Hrows|].
  split; [exact Hperm|]. split; [exact Hrun|].
  exact (Hbase exact_order_insensitive).
Defined.

(** C8 on binary64: the three rows of [cancelling_frame] with
    instrument 1 have the treatments 1e16, 1 and -1e16.  Summed in that
    order they give 0, so the estimate of the frame is 1/0; the sample
    at fraction 1 takes the rows in the order 0, 2, 1, 3, in which the
    sum is 1, and its estimate is 3. *)
Lemma subset_refutation_counterexample :
  wf_frame cancelling_frame /\
  (Z.of_nat (nrows cancelling_frame) < 2 ^ 53)%Z /\
  (choice (A:=float) 4 (sample_count 1 4) (world cancelling_frame)).1 =
    Ok [0; 2; 1; 3] /\
  (estimate_value 0 None (world cancelling_frame)).1 = Ok infinity /\
  (refute_estimate_subset 0 0 (Some 1%Q) (world cancelling_frame)).1 =
    Ok 3%float.
Proof.
  split; [by apply frame_wf|]. split; [simpl; lia|].
  repeat split; vm_compute; reflexivity.
Qed.

Lemma estimator_reads_three_columns_witness :
  (estimate_value 0 None (world binary_frame)).1 =
  (estimate_value 0 None (world wide_frame)).1.
Proof.
  refine (estimator_reads_three_columns (world binary_frame)
            (world wide_frame) 0 0 binary_frame wide_frame None
            eq_refl eq_refl _).
  intros name Hname.
  repeat (apply elem_of_cons in Hname as [->|Hname]; [reflexivity|]).
  by apply elem_of_nil in Hname.
Defined.

Lemma estimator_missing_column_witness :
  instrumental_variables_estimator 0 None (world no_outcome_frame) =
  (Raise (KeyError "y"), world no_outcome_frame).
Proof.
  exact (estimator_missing_column (world no_outcome_frame) 0 no_outcome_frame
           None "y" eq_refl eq_refl).
Defined.

Lemma permute_placebo_needs_v_witness :
  refute_estimate_placebo 0 0 (Some "permute") (Some 5%Z)
    (world renamed_frame) =
  (Raise (KeyError "v"), world renamed_frame).
Proof.
  exact (permute_placebo_needs_v (world renamed_frame) 0 0 renamed_frame
           (Some 5%Z) eq_refl eq_refl eq_refl).
Defined.

Lemma placebo_without_simulations_witness :
  refute_estimate_placebo 0 0 None (Some 0%Z) (world binary_frame) =
    (Raise ZeroDivisionError, world binary_frame) /\
  refute_estimate_placebo 0 0 None (Some (-2)%Z) (world binary_frame) =
    (Ok (-0)%float, world binary_frame).
Proof.
  split.
  - refine (placebo_without_simulations (world binary_frame) 0 0 binary_frame
              None (Some 0%Z) eq_refl _).
    simpl. lia.
  - refine (placebo_without_simulations (world binary_frame) 0 0 binary_frame
              None (Some (-2)%Z) eq_refl _).
    simpl. lia.
Defined.

Lemma random_refuter_footprint_witness :
  let out := refute_estimate_random 0 0 (world binary_frame) in
  out.1 = iv_estimate binary_frame "v" /\
  np_random out.2 = advance tape 5 /\
  length (heap out.2) = 1 + (if out.1 is Ok _ then 2 else 1).
Proof.
  exact (random_refuter_footprint (world binary_frame) 0 0 binary_frame
           eq_refl).
Defined.

Lemma refute_random_again_witness :
  (refute_estimate_random 0 0
     (refute_estimate_random 0 0 (world binary_frame)).2).1 =
  (refute_estimate_random 0 0 (world binary_frame)).1.
Proof.
  exact (refute_random_again (world binary_frame) 0 0 0 binary_frame eq_refl).
Defined.

Lemma refuters_need_v_witness :
  (refute_estimate_random 0 0 (world renamed_frame)).1 =
    Raise (KeyError "v") /\
  (refute_estimate_subset 0 0 None (world renamed_frame)).1 =
    Raise (KeyError "v").
Proof.
  refine (refuters_need_v (world renamed_frame) 0 0 renamed_frame None
            eq_refl (mk_is_Some _ _ eq_refl) (mk_is_Some _ _ eq_refl)
            eq_refl _ _).
  - simpl. lra.
  - simpl. lra.
Defined.

Lemma estimator_row_order_witness :
  (estimate_value 0 None
     (exact_world (take_rows linear_frame [2; 0; 3; 1]))).1 =
  (estimate_value 0 None (exact_world linear_frame)).1.
Proof.
  refine (estimator_row_order (exact_world linear_frame)
            (exact_world (take_rows linear_frame [2; 0; 3; 1])) 0 0
            linear_frame [2; 0; 3; 1] None eq_refl eq_refl
            linear_frame_wf _).
  apply (Permutation_trans (perm_swap 0 2 [3; 1])).
  apply (perm_skip 0).
  apply (Permutation_trans (perm_skip 2 (perm_swap 1 3 []))).
  apply (perm_swap 1 2 [3]).
Defined.

Lemma noise_placebo_ignores_treatment_witness :
  (refute_estimate_placebo 0 0 None (Some 3%Z) (world binary_frame)).1 =
  (refute_estimate_placebo 0 0 None (Some 3%Z)
     (world other_treatment_frame)).1.
Proof.
  refine (noise_placebo_ignores_treatment (world binary_frame)
            (world other_treatment_frame) 0 0 0 0 binary_frame
            other_treatment_frame None (Some 3%Z) _
            eq_refl eq_refl eq_refl eq_refl eq_refl eq_refl).
  simpl. discriminate.
Defined.

Lemma placebo_returns_witness :
  exists r,
    (refute_estimate_placebo 0 0 (Some "permute") (Some 2%Z)
       (world binary_frame)).1 = Ok r.
Proof.
  refine (placebo_returns (world binary_frame) 0 0 binary_frame
            (Some "permute") (Some 2%Z) eq_refl binary_frame_wf
            (mk_is_Some _ _ eq_refl) (mk_is_Some _ _ eq_refl)
            (mk_is_Some _ _ eq_refl) _).
  simpl. lia.
Defined.

Lemma subset_returns_witness :
  exists r, (refute_estimate_subset 0 0 None (world binary_frame)).1 = Ok r.
Proof.
  refine (subset_returns (world binary_frame) 0 0 binary_frame None eq_refl
            (mk_is_Some _ _ eq_refl) (mk_is_Some _ _ eq_refl)
            (mk_is_Some _ _ eq_refl) _ _).
  - simpl. lra.
  - simpl. lra.
Defined.

Lemma notebook_runs_witness :
  exists base res_placebo res_subset,
    iv_estimate binary_frame "v" = Ok base /\
    (notebook 0 (world binary_frame)).1 =
      Ok [base; base; base; base; res_placebo; base; res_subset] /\
    heap (notebook 0 (world binary_frame)).2 !! 0 =
      Some (ODataFrame binary_frame).
Proof.
  exact (notebook_runs (world binary_frame) 0 binary_frame eq_refl
           (mk_is_Some _ _ eq_refl) (mk_is_Some _ _ eq_refl)
           (mk_is_Some _ _ eq_refl)).
Defined.

Lemma one_sided_instrument_witness :
  exists est,
    instrumental_variables_estimator 0 None (world recoded_frame) =
      (Ok 1,
       {| heap := [ODataFrame recoded_frame; OEstimate {| value := est |}];
          np_random := tape |}) /\
    is_nan est = true.
Proof.
  refine (one_sided_instrument_gives_nan (world recoded_frame) 0
            recoded_frame None _ _ _ 0%Z eq_refl eq_refl eq_refl eq_refl
            _ (or_intror eq_refl) _).
  - vm_compute. lia.
  - repeat constructor.
Defined.

Lemma estimator_on_empty_frame_witness :
  exists est,
    instrumental_variables_estimator 0 None (world empty_frame) =
      (Ok 1,
       {| heap := [ODataFrame empty_frame; OEstimate {| value := est |}];
          np_random := tape |}) /\
    is_nan est = true.
Proof.
  refine (estimator_on_empty_frame (world empty_frame) 0 empty_frame None
            eq_refl _ eq_refl (mk_is_Some _ _ eq_refl)
            (mk_is_Some _ _ eq_refl) (mk_is_Some _ _ eq_refl)).
  by apply frame_wf.
Defined.

Lemma pearl_on_linear_data_witness :
  exists sz sxz : Qc,
    (estimate_value 0 None (exact_world linear_continuous_frame)).1 =
    Ok (Finite (Qc_of_Z 7 + Qc_of_Z 2 * sz / sxz)%Qc).
Proof.
  assert (Hdot : np_dot (exact_column [3; 1; 5]%Z) (exact_column [1; 2; 4]%Z)
                 = Finite (Q2Qc 25)).
  { vm_compute. reflexivity. }
  assert (Hsxz : Q2Qc 25 <> 0%Qc).
  { intros Heq. apply (f_equal this) in Heq. vm_compute in Heq.
    discriminate Heq. }
  assert (Hcont : 2 < num_distinct (exact_column [1; 2; 4]%Z))
    by (vm_compute; lia).
  destruct (pearl_on_linear_data (exact_world linear_continuous_frame) 0
              linear_continuous_frame None (exact_column [1; 2; 4]%Z)
              (exact_column [3; 1; 5]%Z) (Qc_of_Z 2) (Qc_of_Z 7) (Q2Qc 25)
              eq_refl eq_refl eq_refl eq_refl eq_refl Hcont Hdot Hsxz)
    as (sz & _ & Hest).
  by exists sz, (Q2Qc 25).
Defined.

End Witnesses.
